(** * BankistApp: the page behaviour layer of [script.js]

    A shallow embedding of the script's controllers (delegated dispatch
    utility, modal, tabs, lazy images, slider) and the properties of the
    specification that concern them.

    The browser is the environment.  Its objects are modelled as follows.
    - An element is a record of the properties the script reads or writes
      (tag, class list, data attributes, [src], [style.transform]).
    - The static document is the list of its elements in document order,
      each with the index of its parent; an element reference is an index.
    - A handler is a function in a small state-and-exception monad over
      the part of the page it touches: it either returns, or throws (a
      [TypeError] on [null]) leaving the mutations made so far in place. *)

From Stdlib Require Import ZArith Lia Ascii String DecimalString DecimalPos DecimalN DecimalZ.
From stdpp Require Import base option list strings gmap.

Local Open Scope Z_scope.

(** ** [DOMTokenList]: the class list of an element

    An ordered set of tokens.  [add] appends a token that is absent,
    [remove] drops it, [contains] tests membership. *)

Definition token_contains (c : string) (l : list string) : bool :=
  bool_decide (c ∈ l).

Definition token_add (c : string) (l : list string) : list string :=
  if token_contains c l then l else l ++ [c].

Definition token_remove (c : string) (l : list string) : list string :=
  filter (λ x, x ≠ c) l.

(** ** Elements *)

Record Element := mkElement {
  tagName : string;
  classList : list string;
  dataset : gmap string string;
  src : string;
  style_transform : string;
}.

Definition set_classList (f : list string → list string) (e : Element) : Element :=
  {| tagName := tagName e; classList := f (classList e); dataset := dataset e;
     src := src e; style_transform := style_transform e |}.

Definition set_src (s : string) (e : Element) : Element :=
  {| tagName := tagName e; classList := classList e; dataset := dataset e;
     src := s; style_transform := style_transform e |}.

Definition set_transform (s : string) (e : Element) : Element :=
  {| tagName := tagName e; classList := classList e; dataset := dataset e;
     src := src e; style_transform := s |}.

(** [element.classList.add(c)], [.remove(c)], [.contains(c)] *)
Definition classList_add (c : string) : Element → Element :=
  set_classList (token_add c).

Definition classList_remove (c : string) : Element → Element :=
  set_classList (token_remove c).

Definition classList_contains (c : string) (e : Element) : bool :=
  token_contains c (classList e).

(** ** Selectors

    Every selector of the script is a compound selector: an optional tag,
    class names, and data attributes that must be present
    (['nav.nav'], ['.btn.operations__tab'], ['img[data-src].lazy-img']).
    A selector string built from a data attribute
    (['.operations__content--${key}']) is parsed as CSS: it is the class
    selector of the whole text only when the key is made of name
    characters ([css_name] below).  The theorems that depend on the panel
    found by such a selector state this as a hypothesis. *)

Record Selector := mkSelector {
  sel_tag : option string;
  sel_classes : list string;
  sel_data : list string;
}.

Definition class_sel (c : string) : Selector :=
  {| sel_tag := None; sel_classes := [c]; sel_data := [] |}.

Definition elt_matches (sel : Selector) (e : Element) : bool :=
  match sel_tag sel with
  | Some t => bool_decide (tagName e = t)
  | None => true
  end
  && forallb (λ c, classList_contains c e) (sel_classes sel)
  && forallb (λ k, bool_decide (is_Some (dataset e !! k))) (sel_data sel).

(** The ASCII name characters of CSS: letters, digits, [-] and [_].  A
    text made of them continues an identifier: appended to a class
    selector it gives the class selector of the longer name, with no
    combinator, no second compound and no syntax error. *)
Definition css_name_char (c : ascii) : bool :=
  let n := N_of_ascii c in
  ((48 <=? n)%N && (n <=? 57)%N)
  || ((65 <=? n)%N && (n <=? 90)%N)
  || ((97 <=? n)%N && (n <=? 122)%N)
  || (n =? 45)%N || (n =? 95)%N.

Fixpoint css_name (s : string) : bool :=
  match s with
  | EmptyString => true
  | String c s' => css_name_char c && css_name s'
  end.

(** ** The static document *)

Abbreviation NodeId := nat.

Record DomNode := mkNode {
  parentNode : option NodeId;
  element : Element;
}.

Abbreviation Document := (list DomNode).

(** Parents precede their children in document order. *)
Definition wf_doc (doc : Document) : Prop :=
  ∀ (n : NodeId) nd p, doc !! n = Some nd → parentNode nd = Some p → (p < n)%nat.

(** The element and its ancestors, nearest first.  A node at index [n] has
    at most [n] ancestors in a well-formed document, so [S n] steps reach
    the root. *)
Fixpoint lineage_from (fuel : nat) (doc : Document) (n : NodeId)
  : list (NodeId * Element) :=
  match fuel with
  | O => []
  | S fuel' =>
    match doc !! n with
    | None => []
    | Some nd =>
      (n, element nd) ::
      match parentNode nd with
      | None => []
      | Some p => lineage_from fuel' doc p
      end
    end
  end.

Definition lineage (doc : Document) (n : NodeId) : list (NodeId * Element) :=
  lineage_from (S n) doc n.

(** [scope.querySelectorAll(sel)]: the descendants of [scope] that match,
    in document order; [None] is [document], whose scope is every element. *)
Definition in_scope (doc : Document) (scope : option NodeId) (n : NodeId) : bool :=
  match scope with
  | None => true
  | Some s => bool_decide (s ∈ (tail (lineage doc n)).*1)
  end.

Definition node_elt_matches (doc : Document) (sel : Selector) (n : NodeId) : bool :=
  match doc !! n with
  | Some nd => elt_matches sel (element nd)
  | None => false
  end.

Definition querySelectorAll (doc : Document) (scope : option NodeId)
    (sel : Selector) : list NodeId :=
  filter (λ n, in_scope doc scope n && node_elt_matches doc sel n = true)
         (seq 0 (length doc)).

(** [scope.querySelector(sel)]: the first match, or [null]. *)
Definition querySelector (doc : Document) (scope : option NodeId)
    (sel : Selector) : option NodeId :=
  head (querySelectorAll doc scope sel).

(** ** What the dispatch utility needs of a node

    [evt.target.matches(sel)] and [evt.target.closest(sel)] look at the
    target and at its ancestors.  A page state [W] with node references
    [N] provides them through the lineage of a node. *)

Class DomView (W N : Type) := lineage_of : W → N → list (N * Element).

Global Instance Document_view : DomView Document NodeId := lineage.

Section NodeMethods.
Context {W N : Type} `{!DomView W N}.

(** [node.matches(sel)] *)
Definition node_matches (w : W) (n : N) (sel : Selector) : bool :=
  match lineage_of w n with
  | (_, e) :: _ => elt_matches sel e
  | [] => false
  end.

(** [node.closest(sel)]: the nearest of the node and its ancestors that
    matches, or [null]. *)
Definition node_closest (w : W) (n : N) (sel : Selector) : option N :=
  fst <$> List.find (λ ne, elt_matches sel ne.2) (lineage_of w n).
End NodeMethods.

(** ** Events *)

Record Event (N : Type) := mkEvent {
  target : N;
  key : string;
}.
Arguments mkEvent {N} _ _.
Arguments target {N} _.
Arguments key {N} _.

(** ** Handlers: state and exceptions *)

Inductive Outcome (W A : Type) :=
| Returned (a : A) (w : W)
| Thrown (w : W).
Arguments Returned {W A} _ _.
Arguments Thrown {W A} _.

Definition JS (W A : Type) := W → Outcome W A.

Global Instance JS_ret {W} : MRet (JS W) := λ A a w, Returned a w.

Global Instance JS_bind {W} : MBind (JS W) := λ A B f m w,
  match m w with
  | Returned a w' => f a w'
  | Thrown w' => Thrown w'
  end.

Definition throw {W A} : JS W A := λ w, Thrown w.
Definition get_world {W} : JS W W := λ w, Returned w w.
Definition modify_world {W} (f : W → W) : JS W () := λ w, Returned () (f w).

Definition final_world {W A} (o : Outcome W A) : W :=
  match o with
  | Returned _ w => w
  | Thrown w => w
  end.

(** [array.forEach(f)] *)
Fixpoint forEach {W A} (f : A → JS W ()) (l : list A) : JS W () :=
  match l with
  | [] => mret ()
  | x :: l' => f x ;; forEach f l'
  end.

(** Access through a reference that may be [null]: reading a property of
    [null] throws.  A reference returned by a query always designates an
    element of the document. *)
Definition read_node {A} (r : option NodeId) (f : Element → A) : JS Document A :=
  λ doc,
    match r with
    | None => Thrown doc
    | Some n =>
      match doc !! n with
      | Some nd => Returned (f (element nd)) doc
      | None => Thrown doc
      end
    end.

Definition map_element (f : Element → Element) (nd : DomNode) : DomNode :=
  {| parentNode := parentNode nd; element := f (element nd) |}.

Definition update_node (r : option NodeId) (f : Element → Element) : JS Document () :=
  λ doc,
    match r with
    | None => Thrown doc
    | Some n =>
      match doc !! n with
      | Some nd => Returned () (<[n := map_element f nd]> doc)
      | None => Thrown doc
      end
    end.

(** ** [utils] *)

Module utils.
Section Utils.
Context {W N : Type} `{!DomView W N}.

(** [delegatedEventListener(matchingStrategy, onCallback)].  The
    strategy is a predicate: it reads the page and changes nothing.  The
    first argument of the callback is the receiver that
    [onCallback.call(evt.target, evt)] passes: the [this] of a callback
    written as a [function], while an arrow function keeps the [this]
    of its own scope and sees the event only.  The handler returns the
    callback's result, or [null] ([None]). *)
Definition delegatedEventListener {A}
    (matchingStrategy : Event N → W → bool)
    (onCallback : N → Event N → JS W A) : Event N → JS W (option A) :=
  λ evt w,
    (if matchingStrategy evt w
     then a ← onCallback (target evt) evt; mret (Some a)
     else mret None : JS W (option A)) w.

(** [selectorMatchingStrategy(selector)] *)
Definition selectorMatchingStrategy (selector : Selector) : Event N → W → bool :=
  λ evt w,
    node_matches w (target evt) selector
    || bool_decide (is_Some (node_closest w (target evt) selector)).

(** [delegatedTargetSelectorEventListener(selector, onCallback)] *)
Definition delegatedTargetSelectorEventListener {A}
    (selector : Selector) (onCallback : N → Event N → JS W A)
  : Event N → JS W (option A) :=
  delegatedEventListener (selectorMatchingStrategy selector) onCallback.
End Utils.

(** [toggleClass(element, className, isPresent)], on the element's
    properties; [isPresent] is a boolean or a function returning one. *)
Definition toggleClass (element : Element) (className : string)
    (isPresent : bool + (() → bool)) : Element :=
  let toAdd := match isPresent with inl b => b | inr f => f () end in
  if toAdd then classList_add className element
  else classList_remove className element.
End utils.

(** ** Observing the invocations of a callback

    To state which calls a handler makes, the page state is paired with a
    log, and the callback is wrapped so that each invocation appends the
    receiver it was called with and its event to the log. *)

Record Call (N : Type) := mkCall {
  call_receiver : N;
  call_event : Event N;
}.
Arguments mkCall {N} _ _.
Arguments call_receiver {N} _.
Arguments call_event {N} _.

Global Instance Logged_view {W N L} `{!DomView W N} : DomView (W * L) N :=
  λ wl n, lineage_of wl.1 n.

Definition recording {W N A} (onCallback : N → Event N → JS W A)
  : N → Event N → JS (W * list (Call N)) A :=
  λ receiver evt wl,
    match onCallback receiver evt wl.1 with
    | Returned a w' => Returned a (w', wl.2 ++ [mkCall receiver evt])
    | Thrown w' => Thrown (w', wl.2 ++ [mkCall receiver evt])
    end.

(** ** Modal window management *)

Module Modal.
(** The nodes the controller queries once, when the script starts. *)
Record Refs := mkRefs {
  modal : option NodeId;
  overlay : option NodeId;
  btnCloseModal : option NodeId;
  btnsOpenModal : list NodeId;
}.

Definition query (doc : Document) : Refs :=
  {| modal := querySelector doc None (class_sel "modal");
     overlay := querySelector doc None (class_sel "overlay");
     btnCloseModal := querySelector doc None (class_sel "btn--close-modal");
     btnsOpenModal := querySelectorAll doc None (class_sel "btn--show-modal") |}.

(** Registering a listener on [null] throws.  [Some r]: the close button
    and the overlay exist and every listener of the controller is
    installed.  [None]: the script threw while it registered them; the
    listeners of the show buttons, registered first, are installed all the
    same, and those after the failing line are not. *)
Definition init (doc : Document) : option Refs :=
  let r := query doc in
  if bool_decide (is_Some (btnCloseModal r)) && bool_decide (is_Some (overlay r))
  then Some r else None.

Definition openModal (r : Refs) : JS Document () :=
  update_node (modal r) (classList_remove "hidden") ;;
  update_node (overlay r) (classList_remove "hidden").

Definition closeModal (r : Refs) : JS Document () :=
  update_node (modal r) (classList_add "hidden") ;;
  update_node (overlay r) (classList_add "hidden").

(** The [keydown] listener of the document. *)
Definition onKeydown (r : Refs) (e : Event NodeId) : JS Document () :=
  if bool_decide (key e = "Escape")
  then isHidden ← read_node (modal r) (classList_contains "hidden");
       if negb isHidden then closeModal r else mret ()
  else mret ().

(** One invocation of a registered listener. *)
Inductive Trigger :=
| ClickShowModal            (* a ['.btn--show-modal'] button *)
| ClickCloseModal           (* the close button *)
| ClickOverlay              (* the overlay *)
| Keydown (e : Event NodeId).

Definition listener (r : Refs) (t : Trigger) : JS Document () :=
  match t with
  | ClickShowModal => openModal r
  | ClickCloseModal => closeModal r
  | ClickOverlay => closeModal r
  | Keydown e => onKeydown r e
  end.

(** The page after a listener ran; an exception ends that listener only. *)
Definition handle (r : Refs) (doc : Document) (t : Trigger) : Document :=
  final_world (listener r t doc).

Definition run (r : Refs) (ts : list Trigger) (doc : Document) : Document :=
  foldl (handle r) doc ts.

(** Does the node carry the [hidden] class?  ([None]: no such node.) *)
Definition is_hidden (doc : Document) (n : NodeId) : option bool :=
  (λ nd, classList_contains "hidden" (element nd)) <$> doc !! n.
End Modal.

(** ** Tab manager *)

Module Tabs.
Definition tabBtnSelector : Selector :=
  {| sel_tag := None; sel_classes := ["btn"; "operations__tab"]; sel_data := [] |}.

Definition tabActive : string := "operations__tab--active".
Definition contentActive : string := "operations__content--active".

Record Refs := mkRefs {
  operationsZone : NodeId;
  tabContainer : NodeId;
  tabButtons : list NodeId;
  tabs : list NodeId;
}.

(** The queries run when the script starts; a query on [null] throws,
    and so does registering the listener on a [null] container. *)
Definition init (doc : Document) : option Refs :=
  operationsZone ← querySelector doc None (class_sel "operations");
  tabContainer ←
    querySelector doc (Some operationsZone) (class_sel "operations__tab-container");
  Some {| operationsZone := operationsZone;
          tabContainer := tabContainer;
          tabButtons := querySelectorAll doc (Some tabContainer) tabBtnSelector;
          tabs := querySelectorAll doc (Some operationsZone)
                    (class_sel "operations__content") |}.

(** The value of a data attribute inside a template string. *)
Definition template_value (v : option string) : string :=
  default "undefined" v.

Definition contentSelector (tab : option string) : Selector :=
  class_sel ("operations__content--" +:+ template_value tab).

(** The callback of the click listener, written as a [function]: its
    [this] is the receiver, the event target. *)
Definition onTabClick (r : Refs) (this : NodeId) (_ : Event NodeId)
  : JS Document () :=
  doc ← get_world;
  let clickedBtn := node_closest doc this tabBtnSelector in
  forEach (λ btn, update_node (Some btn) (classList_remove tabActive))
          (tabButtons r) ;;
  forEach (λ zone, update_node (Some zone) (classList_remove contentActive))
          (tabs r) ;;
  update_node clickedBtn (classList_add tabActive) ;;
  tab ← read_node clickedBtn (λ e, dataset e !! "tab");
  doc' ← get_world;
  update_node (querySelector doc' (Some (operationsZone r)) (contentSelector tab))
              (classList_add contentActive).

(** The click listener registered on the tab container. *)
Definition listener (r : Refs) : Event NodeId → JS Document (option ()) :=
  utils.delegatedTargetSelectorEventListener tabBtnSelector (onTabClick r).

Definition has_class (doc : Document) (c : string) (n : NodeId) : bool :=
  match doc !! n with
  | Some nd => classList_contains c (element nd)
  | None => false
  end.

(** The tab buttons, and the panels, that carry their active class. *)
Definition activeButtons (r : Refs) (doc : Document) : list NodeId :=
  filter (λ n, has_class doc tabActive n = true) (tabButtons r).

Definition activePanels (r : Refs) (doc : Document) : list NodeId :=
  filter (λ n, has_class doc contentActive n = true) (tabs r).
End Tabs.

(** ** Image lazy loading *)

Module LazyImages.
Definition lazySelector : Selector :=
  {| sel_tag := Some "img"; sel_classes := ["lazy-img"]; sel_data := ["src"] |}.

(** The page, the targets the observer tracks, and the [load] listeners
    registered so far (one entry per registration). *)
Record World := mkWorld {
  page : Document;
  observed : list NodeId;
  loadListeners : list NodeId;
}.

Record Entry := mkEntry {
  entry_target : NodeId;
  isIntersecting : bool;
}.

Definition on_page {A} (m : JS Document A) : JS World A :=
  λ w,
    match m (page w) with
    | Returned a d =>
      Returned a {| page := d; observed := observed w; loadListeners := loadListeners w |}
    | Thrown d =>
      Thrown {| page := d; observed := observed w; loadListeners := loadListeners w |}
    end.

(** [observer.observe(target)]: a target is tracked once. *)
Definition observe (n : NodeId) : JS World () :=
  modify_world (λ w,
    {| page := page w;
       observed := if bool_decide (n ∈ observed w) then observed w
                   else observed w ++ [n];
       loadListeners := loadListeners w |}).

(** [observer.unobserve(target)] *)
Definition unobserve (n : NodeId) : JS World () :=
  modify_world (λ w,
    {| page := page w;
       observed := filter (λ x, x ≠ n) (observed w);
       loadListeners := loadListeners w |}).

(** [image.addEventListener('load', () => image.classList.remove('lazy-img'))];
    each call registers a new function. *)
Definition addLoadListener (n : NodeId) : JS World () :=
  modify_world (λ w,
    {| page := page w; observed := observed w;
       loadListeners := loadListeners w ++ [n] |}).

(** The callback of the observer [lazyLodaderObs]. *)
Definition lazyLodaderObs (entries : list Entry) : JS World () :=
  match entries with
  | [] => throw
  | entry :: _ =>
    let imageElt := entry_target entry in
    if isIntersecting entry
    then
      unobserve imageElt ;;
      dataSrc ← on_page (read_node (Some imageElt) (λ e, dataset e !! "src"));
      on_page (update_node (Some imageElt) (set_src (default "undefined" dataSrc))) ;;
      addLoadListener imageElt
    else mret ()
  end.

(** Start of the script: every lazy image is observed. *)
Definition init (doc : Document) : World :=
  final_world
    (forEach observe (querySelectorAll doc None lazySelector)
             {| page := doc; observed := []; loadListeners := [] |}).

(** The [load] event of an image runs the listeners registered on it. *)
Definition onLoad (n : NodeId) : JS World () :=
  w ← get_world;
  forEach (λ _, on_page (update_node (Some n) (classList_remove "lazy-img")))
          (filter (λ x, x = n) (loadListeners w)).

Inductive Input :=
| Notify (entries : list Entry)   (* the observer delivers a batch *)
| Loaded (n : NodeId).            (* an image finished loading *)

Definition handle (w : World) (i : Input) : World :=
  match i with
  | Notify entries => final_world (lazyLodaderObs entries w)
  | Loaded n => final_world (onLoad n w)
  end.

Definition src_of (w : World) (n : NodeId) : option string :=
  (λ nd, src (element nd)) <$> page w !! n.
End LazyImages.

(** ** Numbers of the slider

    The slider computes with slide indices: integers far below 2^53, on
    which the arithmetic of JavaScript numbers is exact.  A value is
    [undefined], [NaN] or an integer. *)

Inductive JsVal :=
| Undefined
| NaN
| Num (z : Z).

Global Instance JsVal_eq_dec : EqDecision JsVal.
Proof. solve_decision. Defined.

Definition js_arith (f : Z → Z → Z) (a b : JsVal) : JsVal :=
  match a, b with
  | Num x, Num y => Num (f x y)
  | _, _ => NaN
  end.

Definition js_add : JsVal → JsVal → JsVal := js_arith Z.add.
Definition js_sub : JsVal → JsVal → JsVal := js_arith Z.sub.
Definition js_mul : JsVal → JsVal → JsVal := js_arith Z.mul.

(** [a % b]: the remainder has the sign of the dividend; [NaN] when the
    divisor is zero. *)
Definition js_rem (a b : JsVal) : JsVal :=
  match a, b with
  | Num x, Num y => if bool_decide (y = 0) then NaN else Num (Z.rem x y)
  | _, _ => NaN
  end.

(** [a === b] *)
Definition js_strict_eq (a b : JsVal) : bool :=
  match a, b with
  | Num x, Num y => bool_decide (x = y)
  | Undefined, Undefined => true
  | _, _ => false
  end.

(** The value inside a template string. *)
Definition js_to_string (a : JsVal) : string :=
  match a with
  | Undefined => "undefined"
  | NaN => "NaN"
  | Num z => NilZero.string_of_int (Z.to_int z)
  end.

(** [parseInt(s)] on ASCII input: leading white space, a sign, a [0x]
    prefix for radix 16, then the longest run of digits; [NaN] when there
    is none. *)
Definition is_white_space (c : ascii) : bool :=
  bool_decide (c ∈ [" "; "009"; "010"; "011"; "012"; "013"]%char).

Fixpoint skip_white_space (s : string) : string :=
  match s with
  | String c s' => if is_white_space c then skip_white_space s' else s
  | EmptyString => s
  end.

Definition digit_value (radix : N) (c : ascii) : option N :=
  let n := N_of_ascii c in
  let v :=
    if (48 <=? n)%N && (n <=? 57)%N then Some (n - 48)%N
    else if (97 <=? n)%N && (n <=? 122)%N then Some (n - 87)%N
    else if (65 <=? n)%N && (n <=? 90)%N then Some (n - 55)%N
    else None in
  match v with
  | Some d => if (d <? radix)%N then Some d else None
  | None => None
  end.

Fixpoint parse_digits (radix : N) (s : string) (acc : option N) : option N :=
  match s with
  | String c s' =>
    match digit_value radix c with
    | Some d => parse_digits radix s' (Some (radix * default 0 acc + d)%N)
    | None => acc
    end
  | EmptyString => acc
  end.

Definition parseInt (s : string) : JsVal :=
  let s1 := skip_white_space s in
  let '(sign, s2) :=
    match s1 with
    | String "-" r => (-1, r)
    | String "+" r => (1, r)
    | _ => (1, s1)
    end in
  let '(radix, s3) :=
    match s2 with
    | String "0" (String "x" r) => (16%N, r)
    | String "0" (String "X" r) => (16%N, r)
    | _ => (10%N, s2)
    end in
  match parse_digits radix s3 None with
  | Some n => Num (sign * Z.of_N n)
  | None => NaN
  end.

(** ** Slider management *)

Module Slider.
Definition dotClassName : string := "dots__dot".
Definition dotActive : string := "dots__dot--active".

(** The state of the slider: the selected index, the slides (a static
    node list), and the content of the dots container, that is, its
    descendants in document order.  [dotsContainer] is the container
    itself followed by its ancestors; the script never changes them.
    The [style_transform] of a slide is the text the script assigned
    last.  The browser keeps an assigned text only when it is valid CSS,
    as [translateX(n%)] is for an integer [n]; what is stated about the
    transforms of the page is stated for integer indices. *)
Record State := mkState {
  selectedSlide : JsVal;
  slides : list Element;
  dots : list Element;
  dotsContainer : list Element;
}.

(** [`translateX(${(index - selected) * 100}%)`] *)
Definition translateX (index : nat) (selected : JsVal) : string :=
  "translateX("
  +:+ js_to_string (js_mul (js_sub (Num (Z.of_nat index)) selected) (Num 100))
  +:+ "%)".

(** [dots.querySelectorAll('.dots__dot').forEach((dot, index) => ...)]:
    [index] counts the matching elements only. *)
Fixpoint toggle_dots (selected : JsVal) (index : nat) (content : list Element)
  : list Element :=
  match content with
  | [] => []
  | dot :: rest =>
    if elt_matches (class_sel dotClassName) dot
    then utils.toggleClass dot dotActive
           (inl (js_strict_eq (Num (Z.of_nat index)) selected))
         :: toggle_dots selected (S index) rest
    else dot :: toggle_dots selected index rest
  end.

Definition goTo (selected : JsVal) (st : State) : State :=
  {| selectedSlide := selected;
     slides := imap (λ index slide, set_transform (translateX index selected) slide)
                    (slides st);
     dots := toggle_dots selected 0 (dots st);
     dotsContainer := dotsContainer st |}.

Definition slides_length (st : State) : JsVal :=
  Num (Z.of_nat (length (slides st))).

Definition next (st : State) : State :=
  goTo (js_rem (js_add (selectedSlide st) (Num 1)) (slides_length st)) st.

Definition previous (st : State) : State :=
  goTo (js_sub (if js_strict_eq (selectedSlide st) (Num 0)
                then slides_length st else selectedSlide st)
               (Num 1)) st.

(** The element [<div class='dots__dot' data-slide='${index}'></div>]. *)
Definition dot_element (index : nat) : Element :=
  {| tagName := "div";
     classList := [dotClassName];
     dataset := {[ "slide" := js_to_string (Num (Z.of_nat index)) ]};
     src := "";
     style_transform := "" |}.

(** [addDots]: the content of the container is replaced by one dot per
    slide. *)
Definition addDots (st : State) : State :=
  {| selectedSlide := selectedSlide st;
     slides := slides st;
     dots := imap (λ index _, dot_element index) (slides st);
     dotsContainer := dotsContainer st |}.

(** The state when the script starts, on a page with the given slides,
    dots container, and initial content of the container. *)
Definition init (slides0 content0 container0 : list Element) : State :=
  goTo (Num 0)
    (addDots {| selectedSlide := Undefined; slides := slides0;
                dots := content0; dotsContainer := container0 |}).

(** A node inside the slider: an element of the dots container's
    content, or a node of the static markup, given by the elements of
    its lineage (itself first). *)
Inductive Node :=
| DotsChild (k : nat)
| Static (chain : list Element).

Fixpoint static_lineage (chain : list Element) : list (Node * Element) :=
  match chain with
  | [] => []
  | e :: up => (Static chain, e) :: static_lineage up
  end.

Global Instance State_view : DomView State Node := λ st n,
  match n with
  | DotsChild k =>
    match dots st !! k with
    | Some dot => (DotsChild k, dot) :: static_lineage (dotsContainer st)
    | None => []
    end
  | Static chain => static_lineage chain
  end.

(** [evt.target.dataset.slide] *)
Definition target_slide (evt : Event Node) : JS State (option string) :=
  λ st,
    match lineage_of st (target evt) with
    | (_, e) :: _ => Returned (dataset e !! "slide") st
    | [] => Thrown st
    end.

(** The click listener of the slider, for the dots. *)
Definition onDotClick : Event Node → JS State (option ()) :=
  utils.delegatedTargetSelectorEventListener (class_sel dotClassName)
    (λ _ evt,
       slide ← target_slide evt;
       modify_world (goTo (parseInt (default "undefined" slide)))).

(** The [keyup] listener of the document. *)
Definition onKeyup (key : string) (st : State) : State :=
  if bool_decide (key = "ArrowLeft") then previous st
  else if bool_decide (key = "ArrowRight") then next st
  else st.

(** One invocation of a registered listener. *)
Inductive Input :=
| ClickLeft
| ClickRight
| Keyup (key : string)
| ClickSlider (evt : Event Node).

Definition handle (st : State) (i : Input) : State :=
  match i with
  | ClickLeft => previous st
  | ClickRight => next st
  | Keyup key => onKeyup key st
  | ClickSlider evt => final_world (onDotClick evt st)
  end.

Definition run (inputs : list Input) (st : State) : State :=
  foldl handle st inputs.

(** The clicks the generated markup allows: on a generated dot, or on a
    node of the static markup, none of which is a dot. *)
Definition click_ok (st : State) (evt : Event Node) : Prop :=
  match target evt with
  | DotsChild k => (k < length (dots st))%nat
  | Static chain =>
    Forall (λ e, elt_matches (class_sel dotClassName) e = false) chain
  end.

Definition input_ok (st : State) (i : Input) : Prop :=
  match i with
  | ClickSlider evt => click_ok st evt
  | _ => True
  end.

(** The content of the dots container as [addDots] leaves it: one dot
    per slide, each tagged with its index. *)
Definition dots_generated (st : State) : Prop :=
  length (dots st) = length (slides st)
  ∧ ∀ k dot, dots st !! k = Some dot →
      elt_matches (class_sel dotClassName) dot = true
      ∧ dataset dot !! "slide" = Some (js_to_string (Num (Z.of_nat k))).

(** The selected index is an integer in [0, N). *)
Definition selected_in_range (st : State) : Prop :=
  ∃ s, selectedSlide st = Num s ∧ 0 ≤ s < Z.of_nat (length (slides st)).
End Slider.

(** ** What a class update leaves alone

    The shape of a node is what the updates of class lists never touch:
    its parent, its tag and its data attributes. *)

Definition node_shape (nd : DomNode) : option NodeId * string * gmap string string :=
  (parentNode nd, tagName (element nd), dataset (element nd)).

Definition same_shape (doc doc' : Document) : Prop :=
  node_shape <$> doc' = node_shape <$> doc.

(** ** A sample page

    The structure the script expects, used to run the controllers on
    concrete input. *)

Definition elt (tag : string) (classes : list string)
    (data : gmap string string) : Element :=
  {| tagName := tag; classList := classes; dataset := data;
     src := ""; style_transform := "" |}.

Definition sample_page : Document :=
  [ mkNode None     (elt "body" [] ∅);
    mkNode (Some 0%nat) (elt "div" ["modal"; "hidden"] ∅);
    mkNode (Some 0%nat) (elt "div" ["overlay"; "hidden"] ∅);
    mkNode (Some 1%nat) (elt "button" ["btn--close-modal"] ∅);
    mkNode (Some 0%nat) (elt "button" ["btn--show-modal"] ∅);
    mkNode (Some 0%nat) (elt "div" ["operations"] ∅);
    mkNode (Some 5%nat) (elt "div" ["operations__tab-container"] ∅);
    mkNode (Some 6%nat)
      (elt "button" ["btn"; "operations__tab"; "operations__tab--active"]
           {[ "tab" := "1" ]});
    mkNode (Some 7%nat) (elt "span" [] ∅);
    mkNode (Some 6%nat) (elt "button" ["btn"; "operations__tab"] {[ "tab" := "2" ]});
    mkNode (Some 9%nat) (elt "span" [] ∅);
    mkNode (Some 6%nat) (elt "button" ["btn"; "operations__tab"] {[ "tab" := "3" ]});
    mkNode (Some 11%nat) (elt "span" [] ∅);
    mkNode (Some 5%nat)
      (elt "div" ["operations__content"; "operations__content--1";
                  "operations__content--active"] ∅);
    mkNode (Some 5%nat)
      (elt "div" ["operations__content"; "operations__content--2"] ∅);
    mkNode (Some 5%nat)
      (elt "div" ["operations__content"; "operations__content--3"] ∅);
    mkNode (Some 0%nat)
      (set_src "img/digital-lazy.jpg"
         (elt "img" ["lazy-img"] {[ "src" := "img/digital.jpg" ]}));
    mkNode (Some 0%nat)
      (set_src "img/grow-lazy.jpg"
         (elt "img" ["lazy-img"] {[ "src" := "img/grow.jpg" ]})) ].

Definition sample_modal : Modal.Refs := Modal.query sample_page.

Definition escape : Event NodeId := {| target := 0%nat; key := "Escape" |}.

(** The tab controller of the sample page, and a click on the label
    inside its second tab button. *)
Definition sample_tabs : Tabs.Refs :=
  {| Tabs.operationsZone := 5%nat; Tabs.tabContainer := 6%nat;
     Tabs.tabButtons := [7; 9; 11]%nat; Tabs.tabs := [13; 14; 15]%nat |}.

Definition click_label : Event NodeId := {| target := 10%nat; key := "" |}.

(** The sample page with a second tab button whose key names no panel. *)
Definition page_without_panel : Document :=
  <[9%nat := mkNode (Some 6%nat)
               (elt "button" ["btn"; "operations__tab"] {[ "tab" := "4" ]})]>
    sample_page.

(** One delivery of the lazy-image observer in which both images of the
    sample page have come near the viewport. *)
Definition both_images_near : list LazyImages.Entry :=
  [ {| LazyImages.entry_target := 16%nat; LazyImages.isIntersecting := true |};
    {| LazyImages.entry_target := 17%nat; LazyImages.isIntersecting := true |} ].

Definition sample_slide : Element := elt "div" ["slide"] ∅.

(** A slider of four slides, as the script leaves it when it starts. *)
Definition sample_slider : Slider.State :=
  Slider.init [sample_slide; sample_slide; sample_slide; sample_slide] []
    [elt "div" ["dots"] ∅; elt "div" ["slider"] ∅; elt "body" [] ∅].

Definition click_on (n : Slider.Node) : Event Slider.Node :=
  {| target := n; key := "" |}.

(** ** The rest of the script

    The controllers below complete the embedding: the section reveal, the
    sticky header and the hover effect of the navigation, and the mobile
    navigation toggle.  An observer entry is the record used for the lazy
    images: a target and whether it intersects. *)

(** [classList.toggle(c)] *)
Definition token_toggle (c : string) (l : list string) : list string :=
  if token_contains c l then token_remove c l else token_add c l.

Definition classList_toggle (c : string) : Element → Element :=
  set_classList (token_toggle c).

(** A handler that, whatever its outcome, leaves as they were the shape of
    the page, every class outside [C], and every node outside [P]. *)
Definition changes_only {A} (C : list string) (P : NodeId → Prop)
    (m : JS Document A) : Prop :=
  ∀ doc : Document,
    same_shape doc (final_world (m doc))
    ∧ (∀ c k, c ∉ C →
         Tabs.has_class (final_world (m doc)) c k = Tabs.has_class doc c k)
    ∧ (∀ k, ¬ P k → final_world (m doc) !! k = doc !! k).

Module Sections.
Definition sectionSelector : Selector := class_sel "section".
Definition sectionHidden : string := "section--hidden".

(** The callback of the observer [sectionObs]. *)
Definition sectionObs (entries : list LazyImages.Entry) : JS Document () :=
  match entries with
  | [] => throw
  | entry :: _ =>
    update_node (Some (LazyImages.entry_target entry))
      (λ e, utils.toggleClass e sectionHidden
              (inl (negb (LazyImages.isIntersecting entry))))
  end.

(** Start of the script: every section is hidden and observed; the
    result is the list of observed targets. *)
Definition init : JS Document (list NodeId) :=
  doc ← get_world;
  let sections := querySelectorAll doc None sectionSelector in
  forEach (λ section, update_node (Some section) (classList_add sectionHidden))
          sections ;;
  mret sections.
End Sections.

Module Header.
Definition navLinkSel : Selector := class_sel "nav__link".

Definition navSelector : Selector :=
  {| sel_tag := Some "nav"; sel_classes := ["nav"]; sel_data := [] |}.

Definition imgSelector : Selector :=
  {| sel_tag := Some "img"; sel_classes := []; sel_data := [] |}.

(** The page and the [style.opacity] the script has set on its nodes. *)
Record World := mkWorld {
  page : Document;
  opacity : gmap NodeId string;
}.

Global Instance World_view : DomView World NodeId := λ w n, lineage (page w) n.

(** [el.style.opacity = s] *)
Definition set_opacity (el : NodeId) (s : string) : JS World () :=
  modify_world (λ w, {| page := page w; opacity := <[el := s]> (opacity w) |}).

(** [handleHover(opacity)], for the navigation bar [nav]; [opacity] is
    the text of the template [`${opacity}`], ["0.5"] or ["1"]. *)
Definition handleHover (nav : option NodeId) (opacity : string)
    (_ : NodeId) (evt : Event NodeId) : JS World () :=
  match nav with
  | None => throw
  | Some n =>
    w ← get_world;
    forEach (λ el, if decide (el ≠ target evt) then set_opacity el opacity
                   else mret ())
            (querySelectorAll (page w) (Some n) navLinkSel) ;;
    match querySelector (page w) (Some n) imgSelector with
    | Some img => set_opacity img opacity
    | None => throw
    end
  end.

(** The [mouseover] and [mouseout] listeners of the navigation bar. *)
Definition onMouseover (nav : option NodeId) : Event NodeId → JS World (option ()) :=
  utils.delegatedTargetSelectorEventListener navLinkSel (handleHover nav "0.5").

Definition onMouseout (nav : option NodeId) : Event NodeId → JS World (option ()) :=
  utils.delegatedTargetSelectorEventListener navLinkSel (handleHover nav "1").

(** The callback of the observer [headerObs]. *)
Definition headerObs (nav : option NodeId) (entries : list LazyImages.Entry)
  : JS Document () :=
  match entries with
  | [] => throw
  | entry :: _ =>
    update_node nav
      (λ e, utils.toggleClass e "sticky"
              (inl (negb (LazyImages.isIntersecting entry))))
  end.
End Header.

Module MobileNav.
Definition navOpen : string := "nav__links--open".

Record Refs := mkRefs {
  logo : option NodeId;
  navLinks : option NodeId;
}.

Definition query (doc : Document) : Refs :=
  {| logo := querySelector doc None (class_sel "nav__logo");
     navLinks := querySelector doc None (class_sel "nav__links") |}.

(** Registering the click listener on a [null] logo throws: then neither
    listener is installed. *)
Definition init (doc : Document) : option Refs :=
  let r := query doc in
  if bool_decide (is_Some (logo r)) then Some r else None.

Definition toggleNavLinks (r : Refs) : JS Document () :=
  update_node (navLinks r) (classList_toggle navOpen).

(** The [resize] listener of the window. *)
Definition onResize (r : Refs) (innerWidth : Z) : JS Document () :=
  if bool_decide (1000 ≤ innerWidth)
  then update_node (navLinks r) (classList_remove navOpen)
  else mret ().
End MobileNav.

(** The view of the slider agrees with the selected index: every slide
    is translated relative to it, and a dot is active exactly when its
    index is the selected one. *)
Definition slider_view_consistent (st : Slider.State) : Prop :=
  (∀ j slide, Slider.slides st !! j = Some slide →
     style_transform slide = Slider.translateX j (Slider.selectedSlide st))
  ∧ (∀ k dot, Slider.dots st !! k = Some dot →
       classList_contains Slider.dotActive dot
       = js_strict_eq (Num (Z.of_nat k)) (Slider.selectedSlide st)).

(** A page with a header, a navigation bar and two sections. *)
Definition sample_site : Document :=
  [ mkNode None (elt "body" [] ∅);
    mkNode (Some 0%nat) (elt "header" ["header"] ∅);
    mkNode (Some 1%nat) (elt "nav" ["nav"] ∅);
    mkNode (Some 2%nat) (elt "img" ["nav__logo"] ∅);
    mkNode (Some 2%nat) (elt "ul" ["nav__links"] ∅);
    mkNode (Some 4%nat) (elt "li" ["nav__item"] ∅);
    mkNode (Some 5%nat) (elt "a" ["nav__link"] ∅);
    mkNode (Some 4%nat) (elt "li" ["nav__item"] ∅);
    mkNode (Some 7%nat) (elt "a" ["nav__link"] ∅);
    mkNode (Some 8%nat) (elt "span" [] ∅);
    mkNode (Some 0%nat) (elt "section" ["section"] ∅);
    mkNode (Some 0%nat) (elt "section" ["section"; "section--hidden"] ∅) ].

Definition sample_nav : MobileNav.Refs := MobileNav.query sample_site.

Definition entry_of (n : NodeId) (b : bool) : LazyImages.Entry :=
  {| LazyImages.entry_target := n; LazyImages.isIntersecting := b |}.

(** The sample page without its modal window. *)
Definition page_without_modal : Document :=
  <[1%nat := mkNode (Some 0%nat) (elt "div" [] ∅)]> sample_page.

(** * Properties *)

(** ** Class lists *)

Lemma token_contains_true c l : token_contains c l = true ↔ c ∈ l.
Proof. unfold token_contains. apply bool_decide_eq_true. Qed.

Lemma token_contains_false c l : token_contains c l = false ↔ c ∉ l.
Proof. unfold token_contains. apply bool_decide_eq_false. Qed.

Lemma token_contains_add c c' l :
  token_contains c (token_add c' l) = bool_decide (c = c') || token_contains c l.
Proof.
  unfold token_add. destruct (token_contains c' l) eqn:Hc'.
  - apply token_contains_true in Hc'.
    destruct (bool_decide_reflect (c = c')) as [->|]; [|done].
    simpl. by apply token_contains_true.
  - unfold token_contains.
    destruct (bool_decide_reflect (c = c')) as [->|Hne]; simpl.
    + apply bool_decide_eq_true, elem_of_app. right. by apply list_elem_of_singleton.
    + apply bool_decide_ext. rewrite elem_of_app, list_elem_of_singleton. tauto.
Qed.

Lemma token_contains_remove c c' l :
  token_contains c (token_remove c' l) = negb (bool_decide (c = c')) && token_contains c l.
Proof.
  unfold token_contains, token_remove.
  destruct (bool_decide_reflect (c = c')) as [->|Hne]; simpl.
  - apply bool_decide_eq_false. rewrite list_elem_of_filter. tauto.
  - apply bool_decide_ext. rewrite list_elem_of_filter. tauto.
Qed.

Lemma token_add_present c l : c ∈ l → token_add c l = l.
Proof. intros H. unfold token_add. by apply token_contains_true in H as ->. Qed.

Lemma token_remove_absent c l : c ∉ l → token_remove c l = l.
Proof.
  unfold token_remove. induction l as [|x l IH]; intros H; [done|].
  apply not_elem_of_cons in H as [Hx Hl].
  rewrite filter_cons_True by done. f_equal. by apply IH.
Qed.

Lemma classList_contains_add c c' e :
  classList_contains c (classList_add c' e)
  = bool_decide (c = c') || classList_contains c e.
Proof. apply token_contains_add. Qed.

Lemma classList_contains_remove c c' e :
  classList_contains c (classList_remove c' e)
  = negb (bool_decide (c = c')) && classList_contains c e.
Proof. apply token_contains_remove. Qed.

Lemma classList_add_present c e :
  classList_contains c e = true → classList_add c e = e.
Proof.
  intros H. apply token_contains_true in H. destruct e as [t cl d s tr].
  unfold classList_add, set_classList. simpl in *. by rewrite token_add_present.
Qed.

Lemma classList_remove_absent c e :
  classList_contains c e = false → classList_remove c e = e.
Proof.
  intros H. apply token_contains_false in H. destruct e as [t cl d s tr].
  unfold classList_remove, set_classList. simpl in *.
  by rewrite token_remove_absent.
Qed.

(** ** Node updates *)

Lemma map_element_id f nd : f (element nd) = element nd → map_element f nd = nd.
Proof. intros H. destruct nd as [p e]. unfold map_element. simpl in *. by rewrite H. Qed.

Lemma update_node_Some n f (doc : Document) nd :
  doc !! n = Some nd →
  update_node (Some n) f doc = Returned () (<[n := map_element f nd]> doc).
Proof. intros H. unfold update_node. by rewrite H. Qed.

Lemma update_node_id n f (doc : Document) nd :
  doc !! n = Some nd → f (element nd) = element nd →
  update_node (Some n) f doc = Returned () doc.
Proof.
  intros H Hf. rewrite (update_node_Some _ _ _ _ H), map_element_id by done.
  by rewrite list_insert_id.
Qed.

Lemma read_node_Some {A} n (f : Element → A) (doc : Document) nd :
  doc !! n = Some nd → read_node (Some n) f doc = Returned (f (element nd)) doc.
Proof. intros H. unfold read_node. by rewrite H. Qed.

Lemma JS_bind_Returned {W A B} (m : JS W A) (f : A → JS W B) w a w' :
  m w = Returned a w' → (m ≫= f) w = f a w'.
Proof. intros H. unfold mbind, JS_bind. by rewrite H. Qed.


(** ** Modal *)

Section ModalFacts.
Variable r : Modal.Refs.
Variables m o : NodeId.
Hypothesis Hmodal : Modal.modal r = Some m.
Hypothesis Hoverlay : Modal.overlay r = Some o.

(** Both updates of [openModal] and [closeModal] succeed when the two
    nodes exist, and every node keeps its place. *)
Lemma modal_update_both (f : Element → Element) (doc : Document) ndm ndo :
  doc !! m = Some ndm → doc !! o = Some ndo →
  (update_node (Modal.modal r) f ;; update_node (Modal.overlay r) f) doc
  = Returned ()
      (<[o := map_element f (if decide (o = m) then map_element f ndm else ndo)]>
         (<[m := map_element f ndm]> doc)).
Proof using Hmodal Hoverlay.
  intros Hm Ho. rewrite Hmodal, Hoverlay.
  erewrite JS_bind_Returned by (by apply update_node_Some).
  apply update_node_Some. destruct (decide (o = m)) as [->|Hne].
  - apply list_lookup_insert_eq. by eapply lookup_lt_Some.
  - by rewrite list_lookup_insert_ne.
Qed.

Lemma modal_hidden_after (f : Element → Element) (b : bool) (doc : Document) :
  (∀ e, classList_contains "hidden" (f e) = b) →
  is_Some (doc !! m) → is_Some (doc !! o) →
  ∃ doc',
    (update_node (Modal.modal r) f ;; update_node (Modal.overlay r) f) doc
    = Returned () doc'
    ∧ Modal.is_hidden doc' m = Some b ∧ Modal.is_hidden doc' o = Some b.
Proof using Hmodal Hoverlay.
  intros Hf [ndm Hm] [ndo Ho]. eexists. split; [by apply modal_update_both|].
  assert (Hlen : (m < length doc)%nat ∧ (o < length doc)%nat)
    by (split; by eapply lookup_lt_Some).
  destruct Hlen as [Hlm Hlo]. unfold Modal.is_hidden.
  destruct (decide (o = m)) as [->|Hne].
  - rewrite list_lookup_insert_eq by (by rewrite length_insert). simpl.
    by rewrite Hf.
  - rewrite list_lookup_insert_ne, list_lookup_insert_eq by done.
    rewrite list_lookup_insert_eq by (by rewrite length_insert). simpl.
    by rewrite !Hf.
Qed.

Lemma closeModal_closes (doc : Document) :
  is_Some (doc !! m) → is_Some (doc !! o) →
  ∃ doc', Modal.closeModal r doc = Returned () doc'
    ∧ Modal.is_hidden doc' m = Some true ∧ Modal.is_hidden doc' o = Some true.
Proof using Hmodal Hoverlay.
  apply modal_hidden_after. intros e.
  by rewrite classList_contains_add, bool_decide_eq_true_2.
Qed.

Lemma openModal_opens (doc : Document) :
  is_Some (doc !! m) → is_Some (doc !! o) →
  ∃ doc', Modal.openModal r doc = Returned () doc'
    ∧ Modal.is_hidden doc' m = Some false ∧ Modal.is_hidden doc' o = Some false.
Proof using Hmodal Hoverlay.
  apply modal_hidden_after. intros e.
  by rewrite classList_contains_remove, bool_decide_eq_true_2.
Qed.

Lemma closeModal_closed (doc : Document) :
  Modal.is_hidden doc m = Some true → Modal.is_hidden doc o = Some true →
  Modal.closeModal r doc = Returned () doc.
Proof using Hmodal Hoverlay.
  unfold Modal.is_hidden, Modal.closeModal. intros Hm Ho.
  destruct (doc !! m) as [ndm|] eqn:Em; [|done].
  destruct (doc !! o) as [ndo|] eqn:Eo; [|done].
  simpl in Hm, Ho. injection Hm as Hm. injection Ho as Ho.
  rewrite Hmodal, Hoverlay.
  erewrite JS_bind_Returned
    by (eapply update_node_id; [done | by apply classList_add_present]).
  eapply update_node_id; [done | by apply classList_add_present].
Qed.

Lemma openModal_open (doc : Document) :
  Modal.is_hidden doc m = Some false → Modal.is_hidden doc o = Some false →
  Modal.openModal r doc = Returned () doc.
Proof using Hmodal Hoverlay.
  unfold Modal.is_hidden, Modal.openModal. intros Hm Ho.
  destruct (doc !! m) as [ndm|] eqn:Em; [|done].
  destruct (doc !! o) as [ndo|] eqn:Eo; [|done].
  simpl in Hm, Ho. injection Hm as Hm. injection Ho as Ho.
  rewrite Hmodal, Hoverlay.
  erewrite JS_bind_Returned
    by (eapply update_node_id; [done | by apply classList_remove_absent]).
  eapply update_node_id; [done | by apply classList_remove_absent].
Qed.

Lemma onKeydown_other_key (e : Event NodeId) (doc : Document) :
  key e ≠ "Escape" → Modal.onKeydown r e doc = Returned () doc.
Proof. intros H. unfold Modal.onKeydown. by rewrite bool_decide_eq_false_2. Qed.

Lemma onKeydown_hidden (e : Event NodeId) (doc : Document) :
  Modal.is_hidden doc m = Some true → Modal.onKeydown r e doc = Returned () doc.
Proof using Hmodal.
  unfold Modal.is_hidden, Modal.onKeydown. intros Hm.
  destruct (doc !! m) as [ndm|] eqn:Em; [|done].
  simpl in Hm. injection Hm as Hm. case_bool_decide; [|done].
  rewrite Hmodal. erewrite JS_bind_Returned by (by apply read_node_Some).
  by rewrite Hm.
Qed.

Lemma onKeydown_escape_open (e : Event NodeId) (doc : Document) :
  key e = "Escape" → Modal.is_hidden doc m = Some false →
  Modal.onKeydown r e doc = Modal.closeModal r doc.
Proof using Hmodal.
  unfold Modal.is_hidden, Modal.onKeydown. intros He Hm.
  destruct (doc !! m) as [ndm|] eqn:Em; [|done].
  simpl in Hm. injection Hm as Hm. rewrite bool_decide_eq_true_2 by done.
  rewrite Hmodal. erewrite JS_bind_Returned by (by apply read_node_Some).
  by rewrite Hm.
Qed.
End ModalFacts.

Lemma is_hidden_is_Some (doc : Document) n b :
  Modal.is_hidden doc n = Some b → is_Some (doc !! n).
Proof. unfold Modal.is_hidden. destruct (doc !! n); [eauto | done]. Qed.

Lemma is_Some_is_hidden (doc : Document) n :
  is_Some (doc !! n) → ∃ b, Modal.is_hidden doc n = Some b.
Proof. intros [nd H]. unfold Modal.is_hidden. rewrite H. eauto. Qed.

Example sample_modal_init : Modal.init sample_page = Some sample_modal.
Proof. reflexivity. Qed.

(** C7. While the modal carries [hidden], the Escape key changes nothing.
    While it does not, a click on the overlay, a click on the close button
    and the Escape key each return with [hidden] on the modal and on the
    overlay. *)
Theorem modal_escape_noop_and_close_triggers
    (r : Modal.Refs) (m o : NodeId) (doc : Document) :
  Modal.modal r = Some m → Modal.overlay r = Some o → is_Some (doc !! o) →
  (Modal.is_hidden doc m = Some true →
   ∀ e, key e = "Escape" →
     Modal.listener r (Modal.Keydown e) doc = Returned () doc)
  ∧ (Modal.is_hidden doc m = Some false →
     ∀ t, t = Modal.ClickOverlay ∨ t = Modal.ClickCloseModal
          ∨ (∃ e, t = Modal.Keydown e ∧ key e = "Escape") →
       ∃ doc', Modal.listener r t doc = Returned () doc'
         ∧ Modal.is_hidden doc' m = Some true
         ∧ Modal.is_hidden doc' o = Some true).
Proof.
  intros Hm Ho Hnode. split.
  - intros Hhid e _. simpl. by eapply onKeydown_hidden.
  - intros Hopen t Ht.
    assert (Hclose : ∃ doc', Modal.closeModal r doc = Returned () doc'
              ∧ Modal.is_hidden doc' m = Some true
              ∧ Modal.is_hidden doc' o = Some true).
    { eapply closeModal_closes; eauto using is_hidden_is_Some. }
    destruct Ht as [->| [->| (e & -> & He)]]; simpl; try done.
    by erewrite onKeydown_escape_open.
Qed.

Lemma modal_escape_noop_and_close_triggers_witness :
  Modal.listener sample_modal (Modal.Keydown escape) sample_page
  = Returned () sample_page
  ∧ ∃ doc',
      Modal.listener sample_modal Modal.ClickOverlay
        (Modal.handle sample_modal sample_page Modal.ClickShowModal)
      = Returned () doc'
      ∧ Modal.is_hidden doc' 1%nat = Some true
      ∧ Modal.is_hidden doc' 2%nat = Some true.
Proof.
  split.
  - apply (modal_escape_noop_and_close_triggers sample_modal 1%nat 2%nat sample_page);
      [reflexivity | reflexivity | vm_compute; eauto | reflexivity | reflexivity].
  - apply (modal_escape_noop_and_close_triggers sample_modal 1%nat 2%nat
             (Modal.handle sample_modal sample_page Modal.ClickShowModal));
      [reflexivity | reflexivity | vm_compute; eauto | reflexivity | by left].
Defined.

Section ModalInvariant.
Variable r : Modal.Refs.
Variables m o : NodeId.
Hypothesis Hmodal : Modal.modal r = Some m.
Hypothesis Hoverlay : Modal.overlay r = Some o.

(** A listener leaves the page as it is, or leaves the modal and the
    overlay with the same answer to "hidden?". *)
Lemma modal_handle_cases (doc : Document) (t : Modal.Trigger) :
  is_Some (doc !! m) → is_Some (doc !! o) →
  Modal.handle r doc t = doc
  ∨ ∃ b, Modal.is_hidden (Modal.handle r doc t) m = Some b
       ∧ Modal.is_hidden (Modal.handle r doc t) o = Some b.
Proof using Hmodal Hoverlay.
  intros Hm Ho. unfold Modal.handle.
  destruct (closeModal_closes r m o Hmodal Hoverlay doc Hm Ho) as (dc & Hc & Hcm & Hco).
  destruct (openModal_opens r m o Hmodal Hoverlay doc Hm Ho) as (dp & Hp & Hpm & Hpo).
  destruct t as [| | |e]; simpl.
  - right. exists false. by rewrite Hp.
  - right. exists true. by rewrite Hc.
  - right. exists true. by rewrite Hc.
  - destruct (decide (key e = "Escape")) as [He|He];
      [|left; by rewrite onKeydown_other_key].
    destruct (is_Some_is_hidden doc m Hm) as [[] Hb].
    + left. by erewrite onKeydown_hidden.
    + right. exists true. erewrite onKeydown_escape_open by done. by rewrite Hc.
Qed.

Lemma modal_run_agree (ts : list Modal.Trigger) (doc : Document) :
  is_Some (doc !! m) → is_Some (doc !! o) →
  Modal.is_hidden doc m = Modal.is_hidden doc o →
  Modal.is_hidden (Modal.run r ts doc) m = Modal.is_hidden (Modal.run r ts doc) o.
Proof using Hmodal Hoverlay.
  revert doc. induction ts as [|t ts IH]; intros doc Hm Ho Hagree; [done|].
  simpl. destruct (modal_handle_cases doc t Hm Ho) as [->|(b & Hbm & Hbo)].
  - by apply IH.
  - apply IH; eauto using is_hidden_is_Some. by rewrite Hbm, Hbo.
Qed.
End ModalInvariant.

(** C9. [openModal] leaves both the modal and the overlay without
    [hidden], [closeModal] leaves both with it, and from a page on which
    they agree, they agree after any sequence of listener invocations. *)
Theorem modal_overlay_agree (r : Modal.Refs) (m o : NodeId) (doc : Document) :
  Modal.modal r = Some m → Modal.overlay r = Some o →
  is_Some (doc !! m) → is_Some (doc !! o) →
  (∃ doc', Modal.openModal r doc = Returned () doc'
     ∧ Modal.is_hidden doc' m = Some false ∧ Modal.is_hidden doc' o = Some false)
  ∧ (∃ doc', Modal.closeModal r doc = Returned () doc'
     ∧ Modal.is_hidden doc' m = Some true ∧ Modal.is_hidden doc' o = Some true)
  ∧ (Modal.is_hidden doc m = Modal.is_hidden doc o →
     ∀ ts, Modal.is_hidden (Modal.run r ts doc) m
           = Modal.is_hidden (Modal.run r ts doc) o).
Proof.
  intros Hm Ho Hnm Hno. split; [by eapply openModal_opens|].
  split; [by eapply closeModal_closes|].
  intros Hagree ts. by eapply modal_run_agree.
Qed.

Lemma modal_overlay_agree_witness :
  let ts := [Modal.ClickShowModal; Modal.Keydown escape; Modal.ClickShowModal;
             Modal.ClickOverlay; Modal.ClickShowModal] in
  Modal.is_hidden (Modal.run sample_modal ts sample_page) 1%nat
  = Modal.is_hidden (Modal.run sample_modal ts sample_page) 2%nat.
Proof.
  intros ts.
  apply (modal_overlay_agree sample_modal 1%nat 2%nat sample_page);
    [reflexivity | reflexivity | vm_compute; eauto | vm_compute; eauto | reflexivity].
Defined.

(** C10. On an open modal [openModal] changes nothing, and on a closed
    one [closeModal] changes nothing, whichever listener calls it; in any
    state a second call changes nothing more. *)
Theorem modal_open_close_idempotent (r : Modal.Refs) (m o : NodeId) (doc : Document) :
  Modal.modal r = Some m → Modal.overlay r = Some o →
  is_Some (doc !! m) → is_Some (doc !! o) →
  (Modal.is_hidden doc m = Some false → Modal.is_hidden doc o = Some false →
   Modal.openModal r doc = Returned () doc
   ∧ Modal.listener r Modal.ClickShowModal doc = Returned () doc)
  ∧ (Modal.is_hidden doc m = Some true → Modal.is_hidden doc o = Some true →
     Modal.closeModal r doc = Returned () doc
     ∧ ∀ t, t ≠ Modal.ClickShowModal → Modal.listener r t doc = Returned () doc)
  ∧ (∀ doc', Modal.openModal r doc = Returned () doc' →
       Modal.openModal r doc' = Returned () doc')
  ∧ (∀ doc', Modal.closeModal r doc = Returned () doc' →
       Modal.closeModal r doc' = Returned () doc').
Proof.
  intros Hm Ho Hnm Hno. repeat split.
  - by eapply openModal_open.
  - by eapply openModal_open.
  - by eapply closeModal_closed.
  - intros [| | |e] Ht; simpl; try done; try by eapply closeModal_closed.
    by eapply onKeydown_hidden.
  - intros doc' Hopen.
    destruct (openModal_opens r m o Hm Ho doc Hnm Hno) as (d & Hd & Hdm & Hdo).
    rewrite Hopen in Hd. injection Hd as <-. by eapply openModal_open.
  - intros doc' Hclose.
    destruct (closeModal_closes r m o Hm Ho doc Hnm Hno) as (d & Hd & Hdm & Hdo).
    rewrite Hclose in Hd. injection Hd as <-. by eapply closeModal_closed.
Qed.

Lemma modal_open_close_idempotent_witness :
  Modal.closeModal sample_modal sample_page = Returned () sample_page
  ∧ Modal.listener sample_modal Modal.ClickOverlay sample_page
    = Returned () sample_page.
Proof.
  destruct (modal_open_close_idempotent sample_modal 1%nat 2%nat sample_page)
    as (_ & Hclosed & _); [reflexivity | reflexivity | vm_compute; eauto
                           | vm_compute; eauto |].
  destruct Hclosed as [Hc Ht]; [reflexivity | reflexivity |].
  split; [exact Hc | by apply Ht].
Defined.

(** ** Numbers and strings of the slider *)

Example parseInt_decimal : parseInt "42" = Num 42.
Proof. reflexivity. Qed.

Example parseInt_prefix : parseInt "  -17px" = Num (-17).
Proof. reflexivity. Qed.

Example parseInt_hex : parseInt "0x1F" = Num 31.
Proof. reflexivity. Qed.

Example parseInt_undefined : parseInt "undefined" = NaN.
Proof. reflexivity. Qed.

Example js_to_string_negative : js_to_string (Num (-100)) = "-100".
Proof. reflexivity. Qed.

Lemma to_int_not_nil z : Z.to_int z ≠ Decimal.Pos Decimal.Nil ∧ Z.to_int z ≠ Decimal.Neg Decimal.Nil.
Proof.
  destruct z as [|p|p]; simpl; split; try done;
    intros [= H]; by apply Unsigned.to_uint_nonnil in H.
Qed.

Lemma js_to_string_Num_inj z1 z2 :
  js_to_string (Num z1) = js_to_string (Num z2) → z1 = z2.
Proof.
  simpl. intros H. apply DecimalZ.to_int_inj.
  destruct (to_int_not_nil z1) as [H1 H1'], (to_int_not_nil z2) as [H2 H2'].
  pose proof (NilZero.isi _ H1 H1') as E1. pose proof (NilZero.isi _ H2 H2') as E2.
  rewrite H in E1. congruence.
Qed.


(** Decimal digits accumulate to the value of the numeral. *)
Lemma parse_digits_cons radix c s acc d :
  digit_value radix c = Some d →
  parse_digits radix (String c s) acc
  = parse_digits radix s (Some (radix * default 0 acc + d)%N).
Proof. intros H. simpl. by rewrite H. Qed.

Lemma parse_digits_uint d d' :
  parse_digits 10 (NilEmpty.string_of_uint d) (Some (DecimalPos.Unsigned.of_lu d'))
  = Some (DecimalPos.Unsigned.of_lu (Decimal.revapp d d')).
Proof.
  revert d'. induction d as [|d IH|d IH|d IH|d IH|d IH|d IH|d IH|d IH|d IH|d IH];
    intros d'; [done|..]; simpl Decimal.revapp; rewrite <- IH;
    cbn [NilEmpty.string_of_uint];
    erewrite parse_digits_cons by (vm_compute; reflexivity);
    cbn [DecimalPos.Unsigned.of_lu default]; unfold id; do 2 f_equal; lia.
Qed.

(** On a decimal numeral [parseInt] finds no white space, no sign and no
    [0x] prefix. *)
Lemma parseInt_numeral d :
  d ≠ Decimal.Nil →
  parseInt (NilEmpty.string_of_uint d)
  = match parse_digits 10 (NilEmpty.string_of_uint d) None with
    | Some n => Num (1 * Z.of_N n)
    | None => NaN
    end.
Proof.
  intros Hd. destruct d as [|d|d|d|d|d|d|d|d|d|d]; [done|..]; try reflexivity.
  destruct d; reflexivity.
Qed.

Lemma parseInt_uint d :
  d ≠ Decimal.Nil →
  parseInt (NilEmpty.string_of_uint d) = Num (Z.of_N (Pos.of_uint d)).
Proof.
  intros Hd. rewrite parseInt_numeral by done.
  replace (parse_digits 10 (NilEmpty.string_of_uint d) None)
    with (parse_digits 10 (NilEmpty.string_of_uint d)
            (Some (DecimalPos.Unsigned.of_lu Decimal.Nil)))
    by (by destruct d).
  rewrite parse_digits_uint, DecimalPos.Unsigned.of_uint_alt.
  unfold Decimal.rev. by rewrite Z.mul_1_l.
Qed.

Lemma parseInt_to_string (k : nat) :
  parseInt (js_to_string (Num (Z.of_nat k))) = Num (Z.of_nat k).
Proof.
  destruct (Z.of_nat k) as [|p|p] eqn:E; [reflexivity| |lia].
  simpl. pose proof (DecimalPos.Unsigned.to_uint_nonnil p) as Hp.
  replace (NilZero.string_of_uint (Pos.to_uint p))
    with (NilEmpty.string_of_uint (Pos.to_uint p))
    by (by destruct (Pos.to_uint p)).
  rewrite parseInt_uint by done. by rewrite DecimalPos.Unsigned.of_to.
Qed.

(** ** Slider *)

Lemma elt_matches_class_sel c e :
  elt_matches (class_sel c) e = classList_contains c e.
Proof. unfold elt_matches. simpl. by rewrite !andb_true_r. Qed.

Lemma toggleClass_keeps_dot dot b :
  elt_matches (class_sel Slider.dotClassName)
    (utils.toggleClass dot Slider.dotActive (inl b))
  = elt_matches (class_sel Slider.dotClassName) dot.
Proof.
  rewrite !elt_matches_class_sel. unfold utils.toggleClass. destruct b.
  - by rewrite classList_contains_add.
  - by rewrite classList_contains_remove.
Qed.

Lemma toggleClass_active dot b :
  classList_contains Slider.dotActive (utils.toggleClass dot Slider.dotActive (inl b)) = b.
Proof.
  unfold utils.toggleClass. destruct b.
  - by rewrite classList_contains_add.
  - by rewrite classList_contains_remove.
Qed.

Lemma toggleClass_dataset dot c b :
  dataset (utils.toggleClass dot c (inl b)) = dataset dot.
Proof. by destruct b. Qed.

Lemma toggle_dots_matching selected index content :
  Forall (λ dot, elt_matches (class_sel Slider.dotClassName) dot = true) content →
  Slider.toggle_dots selected index content
  = imap (λ k dot, utils.toggleClass dot Slider.dotActive
                     (inl (js_strict_eq (Num (Z.of_nat (index + k))) selected)))
         content.
Proof.
  intros H. revert index. induction H as [|dot content Hd _ IH]; intros index; [done|].
  simpl. rewrite Hd, IH, Nat.add_0_r. f_equal. apply imap_ext. intros k x _.
  simpl. by rewrite Nat.add_succ_r.
Qed.

Lemma dots_generated_Forall st :
  Slider.dots_generated st →
  Forall (λ dot, elt_matches (class_sel Slider.dotClassName) dot = true) (Slider.dots st).
Proof.
  intros [_ H]. apply Forall_lookup. intros k dot Hk. by apply (H k dot).
Qed.

Lemma goTo_dots_lookup selected st k :
  Slider.dots_generated st →
  Slider.dots (Slider.goTo selected st) !! k
  = (λ dot, utils.toggleClass dot Slider.dotActive
              (inl (js_strict_eq (Num (Z.of_nat k)) selected)))
    <$> Slider.dots st !! k.
Proof.
  intros H. simpl. rewrite toggle_dots_matching by by apply dots_generated_Forall.
  by rewrite list_lookup_imap.
Qed.

Lemma goTo_dots_length selected st :
  Slider.dots_generated st →
  length (Slider.dots (Slider.goTo selected st)) = length (Slider.dots st).
Proof.
  intros H. simpl. rewrite toggle_dots_matching by by apply dots_generated_Forall.
  apply length_imap.
Qed.

Lemma goTo_slides_lookup selected st j :
  Slider.slides (Slider.goTo selected st) !! j
  = set_transform (Slider.translateX j selected) <$> Slider.slides st !! j.
Proof. simpl. by rewrite list_lookup_imap. Qed.

Lemma goTo_slides_length selected st :
  length (Slider.slides (Slider.goTo selected st)) = length (Slider.slides st).
Proof. simpl. apply length_imap. Qed.

Lemma goTo_dots_generated selected st :
  Slider.dots_generated st → Slider.dots_generated (Slider.goTo selected st).
Proof.
  intros H. split.
  - rewrite goTo_dots_length, goTo_slides_length by done. apply H.
  - intros k dot. rewrite goTo_dots_lookup by done.
    destruct (Slider.dots st !! k) as [d|] eqn:Hk; [|done].
    intros [= <-]. rewrite toggleClass_keeps_dot, toggleClass_dataset.
    by apply H.
Qed.

Lemma addDots_dots_generated st : Slider.dots_generated (Slider.addDots st).
Proof.
  split; simpl.
  - apply length_imap.
  - intros k dot. rewrite list_lookup_imap.
    destruct (Slider.slides st !! k); [|done]. intros [= <-]. split; [done|].
    simpl. apply lookup_singleton_eq.
Qed.

Lemma string_app_length (s t : string) :
  String.length (s +:+ t) = (String.length s + String.length t)%nat.
Proof. induction s as [|c s IH]; simpl; [done | by rewrite IH]. Qed.

Lemma string_app_cancel_r (s1 s2 t : string) : s1 +:+ t = s2 +:+ t → s1 = s2.
Proof.
  revert s2. induction s1 as [|c s1 IH]; intros [|c2 s2] H.
  - done.
  - apply (f_equal String.length) in H.
    rewrite !string_app_length in H. simpl in H. lia.
  - apply (f_equal String.length) in H.
    rewrite !string_app_length in H. simpl in H. lia.
  - change (String c (s1 +:+ t) = String c2 (s2 +:+ t)) in H.
    injection H as -> H. f_equal. by apply IH.
Qed.

Lemma translateX_Num (j : nat) (i : Z) :
  Slider.translateX j (Num i)
  = "translateX(" +:+ js_to_string (Num ((Z.of_nat j - i) * 100)) +:+ "%)".
Proof. done. Qed.

Lemma translateX_zero (j : nat) (i : Z) :
  Slider.translateX j (Num i) = "translateX(0%)" ↔ Z.of_nat j = i.
Proof.
  rewrite translateX_Num. split.
  - intros H. 
    change "translateX(0%)" with ("translateX(" +:+ js_to_string (Num 0) +:+ "%)") in H.
    apply (inj (String.append "translateX(")) in H.
    apply string_app_cancel_r, js_to_string_Num_inj in H. lia.
  - intros <-. by rewrite Z.sub_diag.
Qed.

(** C2. After [goTo(i)] with [i] in [0, N): the selected index is [i];
    slide [j] is translated by [(j - i) * 100] percent, which is the zero
    offset for slide [i] only; there are N dots, and dot [k] carries the
    active class exactly when [k = i]. *)
Theorem goTo_selects (st : Slider.State) (i : Z) :
  Slider.dots_generated st →
  0 ≤ i < Z.of_nat (length (Slider.slides st)) →
  let st' := Slider.goTo (Num i) st in
  Slider.selectedSlide st' = Num i
  ∧ length (Slider.slides st') = length (Slider.slides st)
  ∧ length (Slider.dots st') = length (Slider.slides st)
  ∧ (∀ j slide, Slider.slides st' !! j = Some slide →
       style_transform slide
       = "translateX(" +:+ js_to_string (Num ((Z.of_nat j - i) * 100)) +:+ "%)"
       ∧ (style_transform slide = "translateX(0%)" ↔ Z.of_nat j = i))
  ∧ (∀ k dot, Slider.dots st' !! k = Some dot →
       (classList_contains Slider.dotActive dot = true ↔ Z.of_nat k = i))
  ∧ (∃ dot, Slider.dots st' !! Z.to_nat i = Some dot
            ∧ classList_contains Slider.dotActive dot = true).
Proof.
  intros Hgen Hi st'. subst st'.
  assert (Hdot : ∀ k dot, Slider.dots (Slider.goTo (Num i) st) !! k = Some dot →
            (classList_contains Slider.dotActive dot = true ↔ Z.of_nat k = i)).
  { intros k dot. rewrite goTo_dots_lookup by done.
    destruct (Slider.dots st !! k) as [d|]; [|done]. intros [= <-].
    rewrite toggleClass_active. simpl. apply bool_decide_eq_true. }
  split; [done|]. split; [apply goTo_slides_length|].
  split; [rewrite goTo_dots_length by done; apply Hgen|].
  split; [|split; [done|]].
  - intros j slide. rewrite goTo_slides_lookup.
    destruct (Slider.slides st !! j) as [e|]; [|done]. intros [= <-]. simpl.
    split; [apply translateX_Num | apply translateX_zero].
  - destruct (lookup_lt_is_Some_2 (Slider.dots (Slider.goTo (Num i) st)) (Z.to_nat i))
      as [dot Hdq].
    { rewrite goTo_dots_length by done. destruct Hgen as [-> _]. lia. }
    exists dot. split; [done|]. apply (Hdot _ _ Hdq). lia.
Qed.

Lemma next_selected st s :
  Slider.selectedSlide st = Num s →
  0 ≤ s < Z.of_nat (length (Slider.slides st)) →
  Slider.selectedSlide (Slider.next st)
  = Num ((s + 1) `mod` Z.of_nat (length (Slider.slides st))).
Proof.
  intros Hsel Hrange. unfold Slider.next, Slider.slides_length. rewrite Hsel. simpl.
  rewrite bool_decide_eq_false_2 by lia.
  by rewrite Z.rem_mod_nonneg by lia.
Qed.

Lemma previous_selected st s :
  Slider.selectedSlide st = Num s →
  Slider.selectedSlide (Slider.previous st)
  = Num (if decide (s = 0) then Z.of_nat (length (Slider.slides st)) - 1 else s - 1).
Proof.
  intros Hsel. unfold Slider.previous, Slider.slides_length. rewrite Hsel. simpl.
  destruct (decide (s = 0)) as [->|Hne].
  - by rewrite bool_decide_eq_true_2.
  - by rewrite bool_decide_eq_false_2.
Qed.

Lemma previous_in_range (s N : Z) :
  0 ≤ s < N → 0 ≤ (if decide (s = 0) then N - 1 else s - 1) < N.
Proof. destruct (decide (s = 0)); lia. Qed.

Lemma next_slides_length st :
  length (Slider.slides (Slider.next st)) = length (Slider.slides st).
Proof. apply goTo_slides_length. Qed.

Lemma previous_slides_length st :
  length (Slider.slides (Slider.previous st)) = length (Slider.slides st).
Proof. apply goTo_slides_length. Qed.

Lemma iter_next_selected (k : nat) st s :
  Slider.selectedSlide st = Num s →
  0 ≤ s < Z.of_nat (length (Slider.slides st)) →
  Slider.selectedSlide (Nat.iter k Slider.next st)
  = Num ((s + Z.of_nat k) `mod` Z.of_nat (length (Slider.slides st)))
  ∧ length (Slider.slides (Nat.iter k Slider.next st)) = length (Slider.slides st).
Proof.
  intros Hsel Hrange. induction k as [|k [IHs IHl]].
  - simpl. split; [|done]. rewrite Z.add_0_r, Z.mod_small by done. done.
  - change (Nat.iter (S k) Slider.next st)
      with (Slider.next (Nat.iter k Slider.next st)).
    split; [|by rewrite next_slides_length].
    rewrite (next_selected _ _ IHs), IHl.
    + rewrite Zplus_mod_idemp_l. f_equal. f_equal. lia.
    + rewrite IHl. apply Z.mod_pos_bound. lia.
Qed.

(** C5. With N slides and the selected index [s] in [0, N), [next] selects
    [(s + 1) mod N], and N applications of [next] select [s] again. *)
Theorem next_cycle (st : Slider.State) (s : Z) :
  Slider.selectedSlide st = Num s →
  0 ≤ s < Z.of_nat (length (Slider.slides st)) →
  Slider.selectedSlide (Slider.next st)
  = Num ((s + 1) `mod` Z.of_nat (length (Slider.slides st)))
  ∧ Slider.selectedSlide (Nat.iter (length (Slider.slides st)) Slider.next st) = Num s.
Proof.
  intros Hsel Hrange. split; [by apply next_selected|].
  destruct (iter_next_selected (length (Slider.slides st)) st s Hsel Hrange) as [-> _].
  f_equal. rewrite <- (Z.mul_1_l (Z.of_nat (length _))) at 1.
  rewrite Z.mod_add by lia. by apply Z.mod_small.
Qed.

(** C6. With N slides and the selected index [s] in [0, N), [previous]
    selects [N - 1] when [s = 0] and [s - 1] otherwise, and [previous]
    after [next], like [next] after [previous], selects [s] again. *)
Theorem previous_next_inverse (st : Slider.State) (s : Z) :
  Slider.selectedSlide st = Num s →
  0 ≤ s < Z.of_nat (length (Slider.slides st)) →
  Slider.selectedSlide (Slider.previous st)
  = Num (if decide (s = 0) then Z.of_nat (length (Slider.slides st)) - 1 else s - 1)
  ∧ Slider.selectedSlide (Slider.previous (Slider.next st)) = Num s
  ∧ Slider.selectedSlide (Slider.next (Slider.previous st)) = Num s.
Proof.
  intros Hsel Hrange. split; [by apply previous_selected|]. split.
  - rewrite (previous_selected _ _ (next_selected _ _ Hsel Hrange)).
    rewrite next_slides_length. f_equal.
    destruct (decide (s + 1 = Z.of_nat (length (Slider.slides st)))) as [E|E].
    + rewrite E, Z_mod_same_full. rewrite decide_True by done. lia.
    + rewrite Z.mod_small by lia. rewrite decide_False by lia. lia.
  - erewrite next_selected; [| by apply previous_selected |].
    + rewrite previous_slides_length. f_equal. destruct (decide (s = 0)) as [->|Hne].
      * rewrite Z.sub_add, Z_mod_same_full. done.
      * rewrite Z.sub_add. by apply Z.mod_small.
    + rewrite previous_slides_length. by apply previous_in_range.
Qed.

Lemma static_lineage_no_match sel chain :
  Forall (λ e, elt_matches sel e = false) chain →
  List.find (λ ne, elt_matches sel ne.2) (Slider.static_lineage chain) = None.
Proof. induction 1 as [|e chain He _ IH]; [done|]. simpl. by rewrite He. Qed.

(** A click outside the dots reaches no callback. *)
Lemma onDotClick_static st evt chain :
  target evt = Slider.Static chain →
  Forall (λ e, elt_matches (class_sel Slider.dotClassName) e = false) chain →
  Slider.onDotClick evt st = Returned None st.
Proof.
  intros Ht Hchain. unfold Slider.onDotClick.
  unfold utils.delegatedTargetSelectorEventListener, utils.delegatedEventListener.
  replace (utils.selectorMatchingStrategy (class_sel Slider.dotClassName) evt st)
    with false; [done|].
  unfold utils.selectorMatchingStrategy, node_matches, node_closest.
  rewrite Ht. unfold lineage_of, Slider.State_view.
  rewrite static_lineage_no_match by done.
  destruct Hchain as [|e chain He _]; [done|]. simpl. by rewrite He.
Qed.

(** A click on a generated dot goes to the slide of its index. *)
Lemma onDotClick_dot st evt (k : nat) :
  Slider.dots_generated st →
  target evt = Slider.DotsChild k → (k < length (Slider.dots st))%nat →
  Slider.onDotClick evt st
  = Returned (Some ()) (Slider.goTo (Num (Z.of_nat k)) st).
Proof.
  intros Hgen Ht Hk. destruct (lookup_lt_is_Some_2 _ _ Hk) as [dot Hdot].
  destruct Hgen as [_ Hgen]. destruct (Hgen k dot Hdot) as [Hmatch Hslide].
  unfold Slider.onDotClick.
  unfold utils.delegatedTargetSelectorEventListener, utils.delegatedEventListener.
  replace (utils.selectorMatchingStrategy (class_sel Slider.dotClassName) evt st)
    with true.
  - unfold mbind, JS_bind, Slider.target_slide. rewrite Ht.
    unfold lineage_of, Slider.State_view. rewrite Hdot, Hslide.
    unfold modify_world. cbn [default from_option id].
    unfold id. by rewrite parseInt_to_string.
  - unfold utils.selectorMatchingStrategy, node_matches. rewrite Ht.
    unfold lineage_of, Slider.State_view. by rewrite Hdot, Hmatch.
Qed.

Lemma goTo_in_range st (i : Z) :
  0 ≤ i < Z.of_nat (length (Slider.slides st)) →
  Slider.selected_in_range (Slider.goTo (Num i) st).
Proof. intros Hi. exists i. by rewrite goTo_slides_length. Qed.

(** Every listener keeps the generated dots, the number of slides, and a
    selected index in range. *)
Lemma slider_handle_invariant st (i : Slider.Input) :
  Slider.dots_generated st → Slider.selected_in_range st → Slider.input_ok st i →
  Slider.dots_generated (Slider.handle st i)
  ∧ Slider.selected_in_range (Slider.handle st i)
  ∧ length (Slider.slides (Slider.handle st i)) = length (Slider.slides st)
  ∧ length (Slider.dots (Slider.handle st i)) = length (Slider.dots st).
Proof.
  intros Hgen (s & Hsel & Hrange) Hok.
  assert (Hnext : Slider.selected_in_range (Slider.next st)).
  { exists ((s + 1) `mod` Z.of_nat (length (Slider.slides st))).
    split; [by apply next_selected|]. rewrite next_slides_length.
    apply Z.mod_pos_bound. lia. }
  assert (Hprev : Slider.selected_in_range (Slider.previous st)).
  { eexists. split; [by apply previous_selected|]. rewrite previous_slides_length.
    by apply previous_in_range. }
  assert (Hsame : Slider.selected_in_range st) by (by exists s).
  destruct i as [| |key|evt]; simpl.
  - split_and!; [by apply goTo_dots_generated | done
                 | apply goTo_slides_length | by apply goTo_dots_length].
  - split_and!; [by apply goTo_dots_generated | done
                 | apply goTo_slides_length | by apply goTo_dots_length].
  - unfold Slider.onKeyup. repeat case_bool_decide;
      (split_and!; [by try apply goTo_dots_generated | done
                    | by try apply goTo_slides_length
                    | by try apply goTo_dots_length]).
  - simpl in Hok. unfold Slider.click_ok in Hok.
    destruct (target evt) as [k|chain] eqn:Ht.
    + rewrite (onDotClick_dot _ _ k) by done. simpl.
      split_and!; [by apply goTo_dots_generated | | apply length_imap
                   | by apply goTo_dots_length].
      apply goTo_in_range. destruct Hgen as [<- _]. lia.
    + by rewrite (onDotClick_static _ _ chain).
Qed.

Lemma input_ok_same_dots st st' i :
  length (Slider.dots st') = length (Slider.dots st) →
  Slider.input_ok st i → Slider.input_ok st' i.
Proof.
  intros Hlen. destruct i as [| | |evt]; try done. simpl.
  unfold Slider.click_ok. destruct (target evt); [|done]. by rewrite Hlen.
Qed.

Lemma slider_run_invariant inputs st :
  Slider.dots_generated st → Slider.selected_in_range st →
  Forall (Slider.input_ok st) inputs →
  Slider.dots_generated (Slider.run inputs st)
  ∧ Slider.selected_in_range (Slider.run inputs st)
  ∧ length (Slider.slides (Slider.run inputs st)) = length (Slider.slides st).
Proof.
  revert st. induction inputs as [|i inputs IH]; intros st Hgen Hsel Hok; [done|].
  apply Forall_cons in Hok as [Hi Hok].
  destruct (slider_handle_invariant st i Hgen Hsel Hi) as (Hgen' & Hsel' & Hls & Hld).
  destruct (IH (Slider.handle st i) Hgen' Hsel') as (? & ? & Hlen).
  - eapply Forall_impl; [exact Hok|]. intros j. by apply input_ok_same_dots.
  - simpl. split_and!; [done..|]. by rewrite Hlen.
Qed.

Lemma init_dots_generated slides0 content0 container0 :
  Slider.dots_generated (Slider.init slides0 content0 container0).
Proof. apply goTo_dots_generated, addDots_dots_generated. Qed.

(** C3. With at least one slide, the selected index is 0 when the script
    has started, and after any sequence of listener invocations (the two
    buttons, the arrow keys, clicks on the generated dots or elsewhere in
    the slider) it is an integer in [0, N). *)
Theorem selected_always_in_range
    (slides0 content0 container0 : list Element) (inputs : list Slider.Input) :
  (1 ≤ length slides0)%nat →
  let st0 := Slider.init slides0 content0 container0 in
  Forall (Slider.input_ok st0) inputs →
  Slider.selectedSlide st0 = Num 0
  ∧ length (Slider.slides (Slider.run inputs st0)) = length slides0
  ∧ ∃ s, Slider.selectedSlide (Slider.run inputs st0) = Num s
         ∧ 0 ≤ s < Z.of_nat (length slides0).
Proof.
  intros HN st0 Hok. split; [done|].
  assert (Hlen0 : length (Slider.slides st0) = length slides0).
  { unfold st0, Slider.init. by rewrite goTo_slides_length. }
  destruct (slider_run_invariant inputs st0) as (_ & Hsel & Hlen).
  - apply init_dots_generated.
  - exists 0. split; [done|]. rewrite Hlen0. lia.
  - done.
  - destruct Hsel as (s & Hs & Hr). rewrite Hlen, Hlen0 in Hr.
    split; [by rewrite Hlen|]. by exists s.
Qed.

Lemma sample_slider_dots_generated : Slider.dots_generated sample_slider.
Proof.
  split; [reflexivity|]. intros k dot H.
  do 4 (destruct k as [|k]; [injection H as <-; split; reflexivity|]).
  done.
Qed.

Lemma goTo_selects_witness :
  ∃ dot, Slider.dots (Slider.goTo (Num 2) sample_slider) !! 2%nat = Some dot
         ∧ classList_contains Slider.dotActive dot = true.
Proof.
  destruct (goTo_selects sample_slider 2) as (_ & _ & _ & _ & _ & H).
  - apply sample_slider_dots_generated.
  - simpl. lia.
  - exact H.
Defined.

Lemma selected_always_in_range_witness :
  ∃ s, Slider.selectedSlide
         (Slider.run [Slider.ClickLeft; Slider.ClickSlider (click_on (Slider.DotsChild 3));
                      Slider.Keyup "ArrowRight"; Slider.ClickRight;
                      Slider.ClickSlider (click_on (Slider.Static [sample_slide]))]
                     sample_slider) = Num s
       ∧ 0 ≤ s < 4.
Proof.
  destruct (selected_always_in_range
              [sample_slide; sample_slide; sample_slide; sample_slide] []
              [elt "div" ["dots"] ∅; elt "div" ["slider"] ∅; elt "body" [] ∅]
              [Slider.ClickLeft; Slider.ClickSlider (click_on (Slider.DotsChild 3));
               Slider.Keyup "ArrowRight"; Slider.ClickRight;
               Slider.ClickSlider (click_on (Slider.Static [sample_slide]))])
    as (_ & _ & H).
  - simpl. lia.
  - repeat constructor.
  - exact H.
Defined.

Lemma next_cycle_witness :
  Slider.selectedSlide (Slider.next sample_slider) = Num 1
  ∧ Slider.selectedSlide (Nat.iter 4 Slider.next sample_slider) = Num 0.
Proof.
  apply (next_cycle sample_slider 0); [reflexivity | simpl; lia].
Defined.

Lemma previous_next_inverse_witness :
  Slider.selectedSlide (Slider.previous sample_slider) = Num 3
  ∧ Slider.selectedSlide (Slider.previous (Slider.next sample_slider)) = Num 0
  ∧ Slider.selectedSlide (Slider.next (Slider.previous sample_slider)) = Num 0.
Proof.
  apply (previous_next_inverse sample_slider 0); [reflexivity | simpl; lia].
Defined.

(** ** Delegated dispatch *)

(** In a well-formed document the lineage does not depend on the fuel,
    once there is enough of it to reach the root. *)
Lemma lineage_from_enough (doc : Document) :
  wf_doc doc →
  ∀ (n : NodeId) fuel, (n < fuel)%nat → lineage_from fuel doc n = lineage doc n.
Proof.
  intros Hwf n. induction (lt_wf n) as [n _ IH]. intros fuel Hfuel.
  unfold lineage. destruct fuel as [|fuel]; [lia|]. simpl.
  destruct (doc !! n) as [nd|] eqn:Hn; [|done].
  destruct (parentNode nd) as [p|] eqn:Hp; [|done].
  pose proof (Hwf n nd p Hn Hp) as Hlt.
  rewrite (IH p Hlt fuel) by lia. rewrite (IH p Hlt n) by lia. done.
Qed.

Section Dispatch.
Context {W N A : Type} `{!DomView W N}.
Implicit Types (evt : Event N) (w : W) (selector : Selector).

Lemma closest_is_Some w (n : N) selector :
  is_Some (node_closest w n selector)
  ↔ Exists (λ ne, elt_matches selector ne.2 = true) (lineage_of w n).
Proof.
  unfold node_closest. induction (lineage_of w n) as [|[m e] l IH]; simpl.
  - split; [by intros [? ?] | by intros ?%Exists_nil].
  - rewrite Exists_cons. simpl. destruct (elt_matches selector e).
    + split; [by left | by eexists].
    + rewrite IH. split; [by right | by intros [?|?]].
Qed.

Lemma closest_matches w (n m : N) selector :
  node_closest w n selector = Some m →
  ∃ e, (m, e) ∈ lineage_of w n ∧ elt_matches selector e = true.
Proof.
  unfold node_closest. induction (lineage_of w n) as [|[m' e] l IH]; [done|].
  simpl. destruct (elt_matches selector e) eqn:He.
  - intros [= <-]. exists e. split; [left | done].
  - intros H. destruct (IH H) as (e' & Hin & He'). exists e'. split; [by right | done].
Qed.

Lemma matches_closest w (n : N) selector :
  node_matches w n selector = true → is_Some (node_closest w n selector).
Proof.
  unfold node_matches, node_closest. destruct (lineage_of w n) as [|[m e] l]; [done|].
  simpl. intros ->. by eexists.
Qed.

(** The selector strategy holds exactly when the target or one of its
    ancestors matches. *)
Lemma selectorMatchingStrategy_spec selector evt w :
  utils.selectorMatchingStrategy selector evt w
  = bool_decide (Exists (λ ne, elt_matches selector ne.2 = true)
                        (lineage_of w (target evt))).
Proof.
  unfold utils.selectorMatchingStrategy.
  rewrite <- (bool_decide_ext _ _ (closest_is_Some w (target evt) selector)).
  destruct (node_matches w (target evt) selector) eqn:Hm; [|done].
  symmetry. by apply bool_decide_eq_true, matches_closest.
Qed.
End Dispatch.

(** C1 (amended). The handler invokes the callback exactly when the
    predicate holds on the event, once, with the target of the event as
    receiver; otherwise it returns [null] and the page is unchanged.
    With the selector strategy the predicate holds exactly when the target
    or one of its ancestors satisfies the selector, and the element that
    satisfies it is [closest(selector)] of the receiver, one of the
    lineage of the receiver. *)
Theorem delegated_listener_dispatch {W N A : Type} `{!DomView W N}
    (matchingStrategy : Event N → W → bool) (onCallback : N → Event N → JS W A)
    (selector : Selector) (evt : Event N) (w : W) (log : list (Call N)) :
  let invoked : Outcome (W * list (Call N)) (option A) :=
    match onCallback (target evt) evt w with
    | Returned a w' => Returned (Some a) (w', log ++ [mkCall (target evt) evt])
    | Thrown w' => Thrown (w', log ++ [mkCall (target evt) evt])
    end in
  utils.delegatedEventListener (λ e wl, matchingStrategy e wl.1)
    (recording onCallback) evt (w, log)
  = (if matchingStrategy evt w then invoked else Returned None (w, log))
  ∧ utils.delegatedTargetSelectorEventListener selector
      (recording onCallback) evt (w, log)
    = (if bool_decide (Exists (λ ne, elt_matches selector ne.2 = true)
                              (lineage_of w (target evt)))
       then invoked else Returned None (w, log))
  ∧ (∀ m, node_closest w (target evt) selector = Some m →
       ∃ e, (m, e) ∈ lineage_of w (target evt) ∧ elt_matches selector e = true).
Proof.
  intros invoked.
  assert (Hgen : ∀ strategy : Event N → W * list (Call N) → bool,
    utils.delegatedEventListener strategy (recording onCallback) evt (w, log)
    = if strategy evt (w, log) then invoked else Returned None (w, log)).
  { intros strategy. unfold utils.delegatedEventListener.
    destruct (strategy evt (w, log)); [|done].
    unfold mbind, JS_bind, recording, invoked. simpl.
    by destruct (onCallback (target evt) evt w). }
  split; [apply Hgen|]. split; [|intros m; apply closest_matches].
  unfold utils.delegatedTargetSelectorEventListener. rewrite Hgen.
  by rewrite selectorMatchingStrategy_spec.
Qed.

(** C1, as stated, fails: with the selector strategy the receiver of the
    callback need not satisfy the selector.  A click on the label inside a
    tab button invokes the callback with the label as receiver. *)
Lemma delegated_this_may_not_match :
  ¬ (∀ (selector : Selector) (evt : Event NodeId) (doc : Document) (c : Call NodeId),
       c ∈ (final_world
              (utils.delegatedTargetSelectorEventListener selector
                 (recording (λ _ _, mret ())) evt (doc, []))).2 →
       node_matches doc (call_receiver c) selector = true).
Proof.
  intros H.
  specialize (H Tabs.tabBtnSelector click_label sample_page (mkCall 10%nat click_label)).
  assert (Hfalse : node_matches sample_page 10%nat Tabs.tabBtnSelector = false)
    by reflexivity.
  simpl call_receiver in H. rewrite Hfalse in H.
  assert (false = true); [|done]. apply H. vm_compute. constructor.
Qed.

Lemma delegated_listener_dispatch_witness :
  utils.delegatedTargetSelectorEventListener Tabs.tabBtnSelector
    (recording (λ _ _, mret ())) click_label (sample_page, [])
  = Returned (Some ()) (sample_page, [mkCall 10%nat click_label])
  ∧ node_closest sample_page 10%nat Tabs.tabBtnSelector = Some 9%nat.
Proof.
  destruct (delegated_listener_dispatch (λ _ _, true) (λ _ _, mret ())
              Tabs.tabBtnSelector click_label sample_page [])
    as (_ & H & _).
  split; [rewrite H|]; reflexivity.
Defined.

(** ** Tabs *)

Lemma same_shape_refl doc : same_shape doc doc.
Proof. done. Qed.

Lemma same_shape_trans doc1 doc2 doc3 :
  same_shape doc1 doc2 → same_shape doc2 doc3 → same_shape doc1 doc3.
Proof. unfold same_shape. congruence. Qed.

Lemma same_shape_length doc doc' : same_shape doc doc' → length doc' = length doc.
Proof. intros H. apply (f_equal length) in H. by rewrite !length_fmap in H. Qed.

Lemma same_shape_lookup doc doc' (k : NodeId) :
  same_shape doc doc' → node_shape <$> doc' !! k = node_shape <$> doc !! k.
Proof. intros H. by rewrite <- !list_lookup_fmap, H. Qed.

Lemma same_shape_insert (doc : Document) (n : NodeId) nd g :
  doc !! n = Some nd →
  same_shape doc (<[n := map_element (set_classList g) nd]> doc).
Proof.
  intros H. unfold same_shape. rewrite list_fmap_insert.
  apply list_insert_id. by rewrite list_lookup_fmap, H.
Qed.

Lemma same_shape_lineage doc doc' fuel (n : NodeId) :
  same_shape doc doc' →
  (lineage_from fuel doc' n).*1 = (lineage_from fuel doc n).*1.
Proof.
  intros H. revert n. induction fuel as [|fuel IH]; intros n; [done|]. simpl.
  pose proof (same_shape_lookup _ _ n H) as Hn.
  destruct (doc' !! n) as [nd'|], (doc !! n) as [nd|]; try done.
  simpl in Hn. injection Hn as Hp _ _. rewrite Hp. simpl. f_equal.
  destruct (parentNode nd); [apply IH | done].
Qed.

Lemma same_shape_in_scope doc doc' scope (n : NodeId) :
  same_shape doc doc' → in_scope doc' scope n = in_scope doc scope n.
Proof.
  intros H. destruct scope as [s|]; [|done]. simpl. unfold lineage.
  apply bool_decide_ext.
  assert (E : ∀ d : Document, (tail (lineage_from (S n) d n)).*1
                              = tail (lineage_from (S n) d n).*1)
    by (intros d; by destruct (lineage_from (S n) d n)).
  by rewrite !E, (same_shape_lineage doc doc').
Qed.

Lemma has_class_insert (doc : Document) (n k : NodeId) nd f c :
  doc !! n = Some nd →
  Tabs.has_class (<[n := map_element f nd]> doc) c k
  = if decide (k = n) then classList_contains c (f (element nd))
    else Tabs.has_class doc c k.
Proof.
  intros H. unfold Tabs.has_class. destruct (decide (k = n)) as [->|Hne].
  - rewrite list_lookup_insert_eq by (by eapply lookup_lt_Some). done.
  - by rewrite list_lookup_insert_ne.
Qed.

(** The effect of one [classList.add] on the classes of the page. *)
Lemma update_add_class (doc : Document) (n : NodeId) c :
  (n < length doc)%nat →
  ∃ doc', update_node (Some n) (classList_add c) doc = Returned () doc'
    ∧ same_shape doc doc'
    ∧ ∀ c' k, Tabs.has_class doc' c' k
              = Tabs.has_class doc c' k || bool_decide (c' = c ∧ k = n).
Proof.
  intros Hn. destruct (lookup_lt_is_Some_2 _ _ Hn) as [nd Hnd].
  eexists. split; [by apply update_node_Some|].
  split; [by apply same_shape_insert|]. intros c' k.
  rewrite has_class_insert by done. destruct (decide (k = n)) as [->|Hne].
  - rewrite classList_contains_add. unfold Tabs.has_class. rewrite Hnd.
    rewrite orb_comm. f_equal. apply bool_decide_ext. tauto.
  - rewrite (bool_decide_eq_false_2 (c' = c ∧ k = n)) by tauto.
    by rewrite orb_false_r.
Qed.

(** The effect of [nodes.forEach(n => n.classList.remove(c))]. *)
Lemma forEach_remove_class c (ns : list NodeId) (doc : Document) :
  Forall (λ n, (n < length doc)%nat) ns →
  ∃ doc', forEach (λ n, update_node (Some n) (classList_remove c)) ns doc
          = Returned () doc'
    ∧ same_shape doc doc'
    ∧ ∀ c' k, Tabs.has_class doc' c' k
              = Tabs.has_class doc c' k && negb (bool_decide (c' = c ∧ k ∈ ns)).
Proof.
  revert doc. induction ns as [|n ns IH]; intros doc Hns.
  - exists doc. split; [done|]. split; [done|]. intros c' k.
    rewrite (bool_decide_eq_false_2 (c' = c ∧ k ∈ [])) by (by intros [_ ?%elem_of_nil]).
    by rewrite andb_true_r.
  - apply Forall_cons in Hns as [Hn Hns].
    destruct (lookup_lt_is_Some_2 _ _ Hn) as [nd Hnd].
    destruct (IH (<[n := map_element (classList_remove c) nd]> doc))
      as (doc' & Hrun & Hshape & Hcls).
    { by rewrite length_insert. }
    exists doc'. split.
    { simpl. erewrite JS_bind_Returned by (by apply update_node_Some). exact Hrun. }
    split.
    { eapply same_shape_trans; [|exact Hshape]. by apply same_shape_insert. }
    intros c' k. rewrite Hcls, has_class_insert by done.
    destruct (decide (k = n)) as [->|Hne].
    + rewrite classList_contains_remove. unfold Tabs.has_class. rewrite Hnd.
      destruct (decide (c' = c)) as [->|Hc].
      * rewrite (bool_decide_eq_true_2 (c = c)) by done. simpl.
        rewrite (bool_decide_eq_true_2 (c = c ∧ n ∈ n :: ns)); [|split; [done | left]].
        by rewrite andb_false_r.
      * rewrite (bool_decide_eq_false_2 (c' = c)) by done. simpl.
        rewrite !(bool_decide_eq_false_2 (c' = c ∧ _)) by tauto. done.
    + f_equal. f_equal. apply bool_decide_ext. rewrite elem_of_cons. tauto.
Qed.

(** Queries see the shape of the page and the classes of their selector. *)
Lemma node_elt_matches_stable doc doc' sel (k : NodeId) :
  same_shape doc doc' →
  (∀ c, c ∈ sel_classes sel → Tabs.has_class doc' c k = Tabs.has_class doc c k) →
  node_elt_matches doc' sel k = node_elt_matches doc sel k.
Proof.
  intros Hshape Hcls. pose proof (same_shape_lookup _ _ k Hshape) as Hk.
  unfold node_elt_matches. unfold Tabs.has_class in Hcls.
  destruct (doc' !! k) as [nd'|], (doc !! k) as [nd|]; try done.
  simpl in Hk. injection Hk as _ Htag Hdata. unfold elt_matches.
  rewrite Htag, Hdata. f_equal. f_equal.
  induction (sel_classes sel) as [|c cs IH]; [done|]. simpl.
  rewrite Hcls by left. f_equal. apply IH. intros c' Hc'. apply Hcls. by right.
Qed.

Lemma querySelectorAll_stable doc doc' scope sel :
  same_shape doc doc' →
  (∀ c k, c ∈ sel_classes sel → Tabs.has_class doc' c k = Tabs.has_class doc c k) →
  querySelectorAll doc' scope sel = querySelectorAll doc scope sel.
Proof.
  intros Hshape Hcls. unfold querySelectorAll.
  rewrite (same_shape_length _ _ Hshape). apply list_filter_iff. intros n.
  rewrite (same_shape_in_scope doc doc') by done.
  rewrite (node_elt_matches_stable doc doc'); [done | done |].
  intros c Hc. by apply Hcls.
Qed.

Lemma querySelectorAll_NoDup doc scope sel : NoDup (querySelectorAll doc scope sel).
Proof. apply NoDup_filter, NoDup_seq. Qed.

Lemma querySelectorAll_elem doc scope sel (n : NodeId) :
  n ∈ querySelectorAll doc scope sel →
  (n < length doc)%nat ∧ node_elt_matches doc sel n = true.
Proof.
  unfold querySelectorAll. rewrite list_elem_of_filter, elem_of_seq.
  intros [H1 H2]. apply andb_true_iff in H1 as [_ H1]. split; [lia | done].
Qed.

Lemma querySelectorAll_valid doc scope sel :
  Forall (λ n, (n < length doc)%nat) (querySelectorAll doc scope sel).
Proof. apply Forall_forall. intros n Hn. by apply querySelectorAll_elem in Hn as [? _]. Qed.

Lemma filter_only {A} (P : A → Prop) `{∀ x, Decision (P x)} (l : list A) (b : A) :
  NoDup l → b ∈ l → (∀ k, k ∈ l → P k ↔ k = b) → filter P l = [b].
Proof.
  induction l as [|x l IH]; intros Hnd Hb HP; [by apply elem_of_nil in Hb|].
  apply NoDup_cons in Hnd as [Hx Hnd].
  assert (Hnone : ∀ l' : list A, b ∉ l' → (∀ k, k ∈ l' → P k ↔ k = b) → filter P l' = []).
  { clear. induction l' as [|y l' IH]; intros Hb HP; [done|].
    apply not_elem_of_cons in Hb as [Hy Hb].
    rewrite filter_cons_False.
    - apply IH; [done|]. intros k Hk. apply HP. by right.
    - rewrite HP by left. done. }
  destruct (decide (P x)) as [Hpx|Hpx].
  - assert (x = b) as -> by (apply HP; [left | done]).
    rewrite filter_cons_True by done. f_equal.
    apply Hnone; [done|]. intros k Hk. apply HP. by right.
  - rewrite filter_cons_False by done. apply IH; [done | | ].
    + apply elem_of_cons in Hb as [->|Hb]; [|done].
      exfalso. apply Hpx. apply HP; [left | done].
    + intros k Hk. apply HP. by right.
Qed.

Lemma contentSelector_not_tabActive tab :
  "operations__content--" +:+ Tabs.template_value tab ≠ Tabs.tabActive.
Proof. done. Qed.

Lemma contentSelector_not_contentActive tab :
  Tabs.template_value tab ≠ "active" →
  "operations__content--" +:+ Tabs.template_value tab ≠ Tabs.contentActive.
Proof.
  intros H E. apply H.
  by apply (inj (String.append "operations__content--")) in E.
Qed.

Example sample_tabs_init : Tabs.init sample_page = Some sample_tabs.
Proof. reflexivity. Qed.

(** The callback of the tab listener, step by step: the classes of the
    page after a click whose nearest tab button is [b] and whose panel
    is [p]. *)
Lemma onTabClick_classes (r : Tabs.Refs) (doc : Document) (this : NodeId)
    (evt : Event NodeId) (b p : NodeId) (tab : option string) :
  Forall (λ n, (n < length doc)%nat) (Tabs.tabButtons r) →
  Forall (λ n, (n < length doc)%nat) (Tabs.tabs r) →
  node_closest doc this Tabs.tabBtnSelector = Some b →
  (λ nd, dataset (element nd) !! "tab") <$> doc !! b = Some tab →
  Tabs.template_value tab ≠ "active" →
  querySelector doc (Some (Tabs.operationsZone r)) (Tabs.contentSelector tab) = Some p →
  ∃ doc', Tabs.onTabClick r this evt doc = Returned () doc'
    ∧ same_shape doc doc'
    ∧ ∀ c k, Tabs.has_class doc' c k
        = Tabs.has_class doc c k
          && negb (bool_decide (c = Tabs.tabActive ∧ k ∈ Tabs.tabButtons r))
          && negb (bool_decide (c = Tabs.contentActive ∧ k ∈ Tabs.tabs r))
          || bool_decide (c = Tabs.tabActive ∧ k = b)
          || bool_decide (c = Tabs.contentActive ∧ k = p).
Proof.
  intros Hbtns Htabs Hclosest Htab Hkey Hpanel.
  assert (Hb : (b < length doc)%nat).
  { destruct (doc !! b) eqn:E; [by eapply lookup_lt_Some | done]. }
  destruct (forEach_remove_class Tabs.tabActive _ doc Hbtns) as (doc1 & Hrun1 & Hs1 & Hc1).
  destruct (forEach_remove_class Tabs.contentActive (Tabs.tabs r) doc1)
    as (doc2 & Hrun2 & Hs2 & Hc2).
  { by rewrite (same_shape_length _ _ Hs1). }
  destruct (update_add_class doc2 b Tabs.tabActive) as (doc3 & Hrun3 & Hs3 & Hc3).
  { by rewrite (same_shape_length _ _ Hs2), (same_shape_length _ _ Hs1). }
  assert (Hs03 : same_shape doc doc3) by eauto using same_shape_trans.
  assert (Hread : read_node (Some b) (λ e, dataset e !! "tab") doc3 = Returned tab doc3).
  { pose proof (same_shape_lookup _ _ b Hs03) as Hshape.
    unfold read_node. destruct (doc3 !! b) as [nd3|], (doc !! b) as [nd|]; try done.
    simpl in *. injection Hshape as _ _ Hd. injection Htab as <-. by rewrite Hd. }
  assert (Hquery : querySelector doc3 (Some (Tabs.operationsZone r))
                     (Tabs.contentSelector tab) = Some p).
  { unfold querySelector. rewrite (querySelectorAll_stable doc doc3); [done..|].
    intros c k Hc. apply list_elem_of_singleton in Hc as ->.
    rewrite Hc3, Hc2, Hc1.
    pose proof (contentSelector_not_tabActive tab).
    pose proof (contentSelector_not_contentActive tab Hkey).
    rewrite !(bool_decide_eq_false_2 (_ ∧ _)) by tauto.
    by rewrite !andb_true_r, orb_false_r. }
  assert (Hp : (p < length doc3)%nat).
  { apply head_Some_elem_of, querySelectorAll_elem in Hquery. tauto. }
  destruct (update_add_class doc3 p Tabs.contentActive Hp) as (doc4 & Hrun4 & Hs4 & Hc4).
  exists doc4. split; [|split; [by eauto using same_shape_trans|]].
  - unfold Tabs.onTabClick.
    erewrite JS_bind_Returned by reflexivity. rewrite Hclosest.
    erewrite JS_bind_Returned by exact Hrun1.
    erewrite JS_bind_Returned by exact Hrun2.
    erewrite JS_bind_Returned by exact Hrun3.
    erewrite JS_bind_Returned by exact Hread.
    erewrite JS_bind_Returned by reflexivity.
    by rewrite Hquery.
  - intros c k. by rewrite Hc4, Hc3, Hc2, Hc1.
Qed.

Lemma init_inv (doc : Document) (r : Tabs.Refs) :
  Tabs.init doc = Some r →
  querySelector doc None (class_sel "operations") = Some (Tabs.operationsZone r)
  ∧ querySelector doc (Some (Tabs.operationsZone r))
      (class_sel "operations__tab-container") = Some (Tabs.tabContainer r)
  ∧ Tabs.tabButtons r
    = querySelectorAll doc (Some (Tabs.tabContainer r)) Tabs.tabBtnSelector
  ∧ Tabs.tabs r
    = querySelectorAll doc (Some (Tabs.operationsZone r))
        (class_sel "operations__content").
Proof.
  unfold Tabs.init. intros H.
  destruct (querySelector doc None (class_sel "operations")) as [z|] eqn:Ez;
    [|done].
  simpl in H.
  destruct (querySelector doc (Some z) (class_sel "operations__tab-container"))
    as [tc|] eqn:Etc; [|done].
  simpl in H. injection H as <-. simpl. by rewrite Etc.
Qed.

(** The queries of the controller do not depend on the active classes. *)
Lemma init_stable (doc doc' : Document) :
  same_shape doc doc' →
  (∀ c k, c ≠ Tabs.tabActive → c ≠ Tabs.contentActive →
          Tabs.has_class doc' c k = Tabs.has_class doc c k) →
  Tabs.init doc' = Tabs.init doc.
Proof.
  intros Hshape Hcls.
  assert (Hq : ∀ scope sel,
    Forall (λ c, c ≠ Tabs.tabActive ∧ c ≠ Tabs.contentActive) (sel_classes sel) →
    querySelectorAll doc' scope sel = querySelectorAll doc scope sel).
  { intros scope sel Hsel. apply querySelectorAll_stable; [done|].
    intros c k Hc. rewrite Forall_forall in Hsel. apply Hcls; by apply Hsel. }
  unfold Tabs.init, querySelector.
  rewrite Hq by (by repeat constructor).
  destruct (head (querySelectorAll doc None (class_sel "operations"))) as [z|];
    [|done].
  cbn [mbind option_bind]. rewrite !Hq by (by repeat constructor).
  destruct (head (querySelectorAll doc (Some z) (class_sel "operations__tab-container")))
    as [tc|]; [|done].
  cbn [mbind option_bind]. by rewrite !Hq by (by repeat constructor).
Qed.

(** C4. A click whose nearest tab button is [b], on a page where the
    [data-tab] key of [b] is made of CSS name characters and names the
    panel [p]: the listener returns, [b] is then the only tab button with
    the active class, [p] the only panel with the active class, [p]
    carries the class of the key of [b], and the controller's node lists
    are as before. *)
Theorem tab_click_exclusive (doc : Document) (r : Tabs.Refs)
    (evt : Event NodeId) (b p : NodeId) (tab : option string) :
  Tabs.init doc = Some r →
  node_closest doc (target evt) Tabs.tabBtnSelector = Some b →
  b ∈ Tabs.tabButtons r →
  (λ nd, dataset (element nd) !! "tab") <$> doc !! b = Some tab →
  css_name (Tabs.template_value tab) = true →
  Tabs.template_value tab ≠ "active" →
  querySelector doc (Some (Tabs.operationsZone r)) (Tabs.contentSelector tab) = Some p →
  p ∈ Tabs.tabs r →
  ∃ doc', Tabs.listener r evt doc = Returned (Some ()) doc'
    ∧ Tabs.activeButtons r doc' = [b]
    ∧ Tabs.activePanels r doc' = [p]
    ∧ Tabs.has_class doc' ("operations__content--" +:+ Tabs.template_value tab) p = true
    ∧ (λ nd, dataset (element nd) !! "tab") <$> doc' !! b = Some tab
    ∧ Tabs.init doc' = Some r.
Proof.
  intros Hinit Hclosest Hb Htab _ Hkey Hpanel Hp.
  destruct (init_inv doc r Hinit) as (_ & _ & Hbtns & Htabs).
  destruct (onTabClick_classes r doc (target evt) evt b p tab)
    as (doc' & Hrun & Hshape & Hcls); try done.
  { rewrite Hbtns. apply querySelectorAll_valid. }
  { rewrite Htabs. apply querySelectorAll_valid. }
  exists doc'. split_and!.
  - unfold Tabs.listener, utils.delegatedTargetSelectorEventListener,
      utils.delegatedEventListener.
    replace (utils.selectorMatchingStrategy Tabs.tabBtnSelector evt doc) with true.
    + by erewrite JS_bind_Returned by exact Hrun.
    + symmetry. unfold utils.selectorMatchingStrategy. rewrite Hclosest.
      rewrite (bool_decide_eq_true_2 (is_Some (Some b))) by eauto.
      apply orb_true_r.
  - apply filter_only; [rewrite Hbtns; apply querySelectorAll_NoDup | done |].
    intros k Hk. rewrite Hcls.
    rewrite (bool_decide_eq_true_2 (_ ∧ k ∈ Tabs.tabButtons r)) by done.
    rewrite !(bool_decide_eq_false_2 (Tabs.tabActive = Tabs.contentActive ∧ _))
      by (by intros [? _]).
    rewrite andb_false_r, orb_false_r. simpl.
    rewrite bool_decide_eq_true. tauto.
  - apply filter_only; [rewrite Htabs; apply querySelectorAll_NoDup | done |].
    intros k Hk. rewrite Hcls.
    rewrite (bool_decide_eq_true_2 (_ ∧ k ∈ Tabs.tabs r)) by done.
    rewrite !(bool_decide_eq_false_2 (Tabs.contentActive = Tabs.tabActive ∧ _))
      by (by intros [? _]).
    rewrite andb_false_r. simpl.
    rewrite bool_decide_eq_true. tauto.
  - rewrite Hcls.
    pose proof (contentSelector_not_tabActive tab).
    pose proof (contentSelector_not_contentActive tab Hkey).
    rewrite !(bool_decide_eq_false_2 (_ ∧ _)) by tauto.
    rewrite !andb_true_r, !orb_false_r.
    apply head_Some_elem_of, querySelectorAll_elem in Hpanel as [_ Hm].
    unfold node_elt_matches in Hm. unfold Tabs.has_class.
    destruct (doc !! p) as [nd|]; [|done].
    unfold Tabs.contentSelector in Hm. by rewrite elt_matches_class_sel in Hm.
  - pose proof (same_shape_lookup _ _ b Hshape) as Hsb.
    destruct (doc' !! b) as [nd'|], (doc !! b) as [nd|]; try done.
    simpl in *. injection Hsb as _ _ Hd. by rewrite Hd.
  - rewrite <- Hinit. apply init_stable; [done|]. intros c k Hc1 Hc2.
    rewrite Hcls. rewrite !(bool_decide_eq_false_2 (_ ∧ _)) by tauto.
    by rewrite !andb_true_r, !orb_false_r.
Qed.

(** Without a panel for the key, the panel query returns [null] and the
    callback throws after the buttons were updated. *)
Example tab_click_without_panel :
  ∃ doc', Tabs.listener sample_tabs click_label page_without_panel = Thrown doc'
    ∧ Tabs.activeButtons sample_tabs doc' = [9%nat]
    ∧ Tabs.activePanels sample_tabs doc' = [].
Proof. eexists. split; [vm_compute; reflexivity|]. split; reflexivity. Qed.

Lemma tab_click_exclusive_witness :
  ∃ doc', Tabs.listener sample_tabs click_label sample_page = Returned (Some ()) doc'
    ∧ Tabs.activeButtons sample_tabs doc' = [9%nat]
    ∧ Tabs.activePanels sample_tabs doc' = [14%nat].
Proof.
  destruct (tab_click_exclusive sample_page sample_tabs click_label
              9%nat 14%nat (Some "2"))
    as (doc' & H1 & H2 & H3 & _);
    [ reflexivity | reflexivity | vm_compute; do 2 constructor | reflexivity
    | reflexivity | done | reflexivity | vm_compute; do 2 constructor | ].
  exists doc'. done.
Defined.

(** ** Lazy images *)

(** The callback on a delivery whose first entry is an intersecting
    image: the image is no longer tracked, its source is the value of its
    [data-src] attribute, and a [load] listener is registered. *)
Lemma lazy_callback_first_entry (w : LazyImages.World) entry rest nd :
  LazyImages.isIntersecting entry = true →
  LazyImages.page w !! LazyImages.entry_target entry = Some nd →
  LazyImages.lazyLodaderObs (entry :: rest) w
  = Returned ()
      {| LazyImages.page :=
           <[LazyImages.entry_target entry :=
               map_element (set_src (default "undefined" (dataset (element nd) !! "src"))) nd]>
             (LazyImages.page w);
         LazyImages.observed :=
           filter (λ x, x ≠ LazyImages.entry_target entry) (LazyImages.observed w);
         LazyImages.loadListeners :=
           LazyImages.loadListeners w ++ [LazyImages.entry_target entry] |}.
Proof.
  intros Hint Hnd. unfold LazyImages.lazyLodaderObs. rewrite Hint.
  unfold mbind, JS_bind, LazyImages.unobserve, LazyImages.on_page,
    LazyImages.addLoadListener, modify_world. simpl.
  unfold read_node, update_node. simpl. rewrite Hnd. simpl. by rewrite Hnd.
Qed.

Lemma lazy_callback_not_intersecting (w : LazyImages.World) entry rest :
  LazyImages.isIntersecting entry = false →
  LazyImages.lazyLodaderObs (entry :: rest) w = Returned () w.
Proof. intros H. unfold LazyImages.lazyLodaderObs. by rewrite H. Qed.

Lemma lazy_src_after_first_entry (w : LazyImages.World) entry rest nd :
  LazyImages.isIntersecting entry = true →
  LazyImages.page w !! LazyImages.entry_target entry = Some nd →
  let w' := LazyImages.handle w (LazyImages.Notify (entry :: rest)) in
  LazyImages.src_of w' (LazyImages.entry_target entry)
  = Some (default "undefined" (dataset (element nd) !! "src"))
  ∧ (LazyImages.entry_target entry ∉ LazyImages.observed w')
  ∧ (∀ k, ((λ x, classList (element x)) <$> LazyImages.page w' !! k)
          = ((λ x, classList (element x)) <$> LazyImages.page w !! k)).
Proof.
  intros Hint Hnd w'. subst w'. unfold LazyImages.handle.
  rewrite (lazy_callback_first_entry w entry rest nd Hint Hnd). simpl.
  pose proof (lookup_lt_Some _ _ _ Hnd) as Hlt. split_and!.
  - unfold LazyImages.src_of. simpl. by rewrite list_lookup_insert_eq.
  - rewrite list_elem_of_filter. tauto.
  - intros k. destruct (decide (k = LazyImages.entry_target entry)) as [->|Hne].
    + by rewrite list_lookup_insert_eq, Hnd.
    + by rewrite list_lookup_insert_ne.
Qed.

(** A second delivery for the same image assigns the same source. *)
Lemma lazy_src_one_shot (w : LazyImages.World) entry rest rest' nd :
  LazyImages.isIntersecting entry = true →
  LazyImages.page w !! LazyImages.entry_target entry = Some nd →
  let w1 := LazyImages.handle w (LazyImages.Notify (entry :: rest)) in
  let w2 := LazyImages.handle w1 (LazyImages.Notify (entry :: rest')) in
  LazyImages.src_of w2 (LazyImages.entry_target entry)
  = LazyImages.src_of w1 (LazyImages.entry_target entry).
Proof.
  intros Hint Hnd w1 w2.
  destruct (lazy_src_after_first_entry w entry rest nd Hint Hnd) as (H1 & _ & _).
  fold w1 in H1. rewrite H1. unfold LazyImages.src_of in H1.
  destruct (LazyImages.page w1 !! LazyImages.entry_target entry) as [nd1|] eqn:E1;
    [|done].
  destruct (lazy_src_after_first_entry w1 entry rest' nd1 Hint E1) as (H2 & _ & _).
  fold w2 in H2. rewrite H2. f_equal. f_equal.
  subst w1. unfold LazyImages.handle in E1.
  rewrite (lazy_callback_first_entry w entry rest nd Hint Hnd) in E1. simpl in E1.
  rewrite list_lookup_insert_eq in E1 by (by eapply lookup_lt_Some).
  by injection E1 as <-.
Qed.

(** The [load] event of an image with a registered listener removes the
    placeholder class. *)
Lemma lazy_load_listeners (n : NodeId) (l : list NodeId) (w : LazyImages.World) :
  is_Some (LazyImages.page w !! n) →
  ∃ w', forEach (λ _, LazyImages.on_page
                        (update_node (Some n) (classList_remove "lazy-img"))) l w
        = Returned () w'
    ∧ is_Some (LazyImages.page w' !! n)
    ∧ (l = [] → w' = w)
    ∧ (l ≠ [] → Tabs.has_class (LazyImages.page w') "lazy-img" n = false).
Proof.
  revert w. induction l as [|x l IH]; intros w [nd Hnd].
  - exists w. by eauto.
  - set (w1 := {| LazyImages.page :=
                    <[n := map_element (classList_remove "lazy-img") nd]> (LazyImages.page w);
                  LazyImages.observed := LazyImages.observed w;
                  LazyImages.loadListeners := LazyImages.loadListeners w |}).
    assert (Hstep : LazyImages.on_page
                      (update_node (Some n) (classList_remove "lazy-img")) w
                    = Returned () w1).
    { unfold LazyImages.on_page. by rewrite (update_node_Some _ _ _ _ Hnd). }
    assert (Hn1 : LazyImages.page w1 !! n
                  = Some (map_element (classList_remove "lazy-img") nd)).
    { simpl. apply list_lookup_insert_eq. by eapply lookup_lt_Some. }
    destruct (IH w1) as (w' & Hrun & Hsome & Hnil & Hcons); [by eauto|].
    exists w'. split_and!; [| done | done |].
    + simpl. by erewrite JS_bind_Returned by exact Hstep.
    + intros _. destruct l as [|y l]; [|by apply Hcons].
      rewrite (Hnil eq_refl). unfold Tabs.has_class. rewrite Hn1. simpl.
      by rewrite classList_contains_remove, bool_decide_eq_true_2.
Qed.

Lemma lazy_load_removes_blur (w : LazyImages.World) (n : NodeId) :
  is_Some (LazyImages.page w !! n) → n ∈ LazyImages.loadListeners w →
  Tabs.has_class (LazyImages.page (LazyImages.handle w (LazyImages.Loaded n)))
    "lazy-img" n = false.
Proof.
  intros Hn Hin. unfold LazyImages.handle, LazyImages.onLoad.
  erewrite JS_bind_Returned by reflexivity.
  destruct (lazy_load_listeners n
              (filter (λ x, x = n) (LazyImages.loadListeners w)) w Hn)
    as (w' & -> & _ & _ & Hblur).
  simpl. apply Hblur. intros E.
  assert (Hmem : n ∈ filter (λ x, x = n) (LazyImages.loadListeners w))
    by (by apply list_elem_of_filter).
  rewrite E in Hmem. by apply elem_of_nil in Hmem.
Qed.

(** C8, on the sample page.  When one delivery reports both images near
    the viewport, only the first entry is treated: the second image stays
    tracked and keeps its placeholder source. *)
Theorem lazy_second_entry_ignored :
  let w0 := LazyImages.init sample_page in
  let w1 := LazyImages.handle w0 (LazyImages.Notify both_images_near) in
  LazyImages.observed w0 = [16; 17]%nat
  ∧ LazyImages.observed w1 = [17%nat]
  ∧ LazyImages.src_of w1 16%nat = Some "img/digital.jpg"
  ∧ LazyImages.src_of w1 17%nat = Some "img/grow-lazy.jpg"
  ∧ LazyImages.loadListeners w1 = [16%nat].
Proof. vm_compute. done. Qed.

(** * More properties of the script *)

(** ** [utils.toggleClass] *)

Lemma token_remove_NoDup c l : NoDup l → NoDup (token_remove c l).
Proof. apply NoDup_filter. Qed.

Lemma token_add_NoDup c l : NoDup l → NoDup (token_add c l).
Proof.
  intros H. unfold token_add. destruct (token_contains c l) eqn:E; [done|].
  apply token_contains_false in E. apply NoDup_app. split_and!; [done | | apply NoDup_singleton].
  intros x Hx ->%list_elem_of_singleton. done.
Qed.

Lemma toggleClass_inl e c b :
  utils.toggleClass e c (inl b)
  = set_classList (if b then token_add c else token_remove c) e.
Proof. by destruct b. Qed.

Lemma toggleClass_inr e c (f : () → bool) :
  utils.toggleClass e c (inr f) = utils.toggleClass e c (inl (f ())).
Proof. done. Qed.

(** X1. [toggleClass] leaves the class present exactly when [isPresent]
    is (or returns) true, changes the membership of no other class, and
    touches nothing else of the element. *)
Theorem toggleClass_sets_class (e : Element) (c : string)
    (isPresent : bool + (() → bool)) :
  let b := match isPresent with inl b => b | inr f => f () end in
  let e' := utils.toggleClass e c isPresent in
  classList_contains c e' = b
  ∧ (∀ c', c' ≠ c → classList_contains c' e' = classList_contains c' e)
  ∧ tagName e' = tagName e ∧ dataset e' = dataset e
  ∧ src e' = src e ∧ style_transform e' = style_transform e.
Proof.
  intros b e'.
  assert (He' : e' = utils.toggleClass e c (inl b)) by (by destruct isPresent).
  rewrite He'. unfold utils.toggleClass. destruct b; split_and!; try done.
  - by rewrite classList_contains_add, bool_decide_eq_true_2.
  - intros c' Hc'. by rewrite classList_contains_add, bool_decide_eq_false_2.
  - by rewrite classList_contains_remove, bool_decide_eq_true_2.
  - intros c' Hc'. by rewrite classList_contains_remove, bool_decide_eq_false_2.
Qed.

(** X2. On a class list without duplicates [toggleClass] leaves a class
    list without duplicates; a second call with the same arguments
    changes nothing, and neither does a first call when the class is
    already as asked. *)
Theorem toggleClass_idempotent (e : Element) (c : string)
    (isPresent : bool + (() → bool)) :
  NoDup (classList e) →
  let b := match isPresent with inl b => b | inr f => f () end in
  let e' := utils.toggleClass e c isPresent in
  NoDup (classList e')
  ∧ utils.toggleClass e' c isPresent = e'
  ∧ (classList_contains c e = b → e' = e).
Proof.
  intros Hnd b e'.
  assert (He' : ∀ x, utils.toggleClass x c isPresent = utils.toggleClass x c (inl b))
    by (intros x; by destruct isPresent).
  unfold e'. rewrite !He'. unfold utils.toggleClass. destruct b; split_and!.
  - by apply token_add_NoDup.
  - apply classList_add_present.
    by rewrite classList_contains_add, bool_decide_eq_true_2.
  - apply classList_add_present.
  - by apply token_remove_NoDup.
  - apply classList_remove_absent.
    by rewrite classList_contains_remove, bool_decide_eq_true_2.
  - apply classList_remove_absent.
Qed.

Lemma toggleClass_idempotent_witness :
  let e := elt "nav" ["nav"; "sticky"] ∅ in
  utils.toggleClass e "sticky" (inr (λ _, true)) = e
  ∧ NoDup (classList (utils.toggleClass e "sticky" (inl false))).
Proof.
  intros e.
  destruct (toggleClass_idempotent e "sticky" (inr (λ _, true))) as (_ & _ & H1);
    [compute_done|].
  destruct (toggleClass_idempotent e "sticky" (inl false)) as (H2 & _);
    [compute_done|].
  split; [by apply H1 | exact H2].
Defined.

(** ** What a handler leaves alone *)

Lemma changes_only_ret {A} C P (a : A) : changes_only C P (mret a).
Proof. intros doc. by split_and!. Qed.

Lemma changes_only_throw {A} C P : changes_only C P (@throw Document A).
Proof. intros doc. by split_and!. Qed.

Lemma changes_only_get_world C P : changes_only C P get_world.
Proof. intros doc. by split_and!. Qed.

Lemma changes_only_read_node {A} C P r (f : Element → A) :
  changes_only C P (read_node r f).
Proof.
  intros doc. unfold read_node. destruct r as [n|]; [|by split_and!].
  destruct (doc !! n); by split_and!.
Qed.

Lemma changes_only_bind {A B} C P (m : JS Document A) (f : A → JS Document B) :
  changes_only C P m → (∀ a, changes_only C P (f a)) → changes_only C P (m ≫= f).
Proof.
  intros Hm Hf doc. specialize (Hm doc). unfold mbind, JS_bind.
  destruct (m doc) as [a doc1|doc1]; [|done]. simpl in Hm.
  destruct Hm as (Hs & Hc & Hk). destruct (Hf a doc1) as (Hs' & Hc' & Hk').
  split_and!.
  - by eapply same_shape_trans.
  - intros c k Hck. by rewrite Hc', Hc.
  - intros k HPk. by rewrite Hk', Hk.
Qed.

Lemma changes_only_forEach {A} C P (f : A → JS Document ()) (l : list A) :
  (∀ x, changes_only C P (f x)) → changes_only C P (forEach f l).
Proof.
  intros Hf. induction l as [|x l IH]; [apply changes_only_ret|].
  simpl. apply changes_only_bind; [apply Hf | by intros _].
Qed.

(** An update of the class list of a node in [P] that keeps the
    membership of the classes outside [C]. *)
Lemma changes_only_update C (P : NodeId → Prop) r (f : Element → Element)
    (g : list string → list string) :
  (∀ e, f e = set_classList g e) →
  (∀ c l, c ∉ C → token_contains c (g l) = token_contains c l) →
  (∀ n, r = Some n → P n) →
  changes_only C P (update_node r f).
Proof.
  intros Hf Hg HP doc. unfold update_node. destruct r as [n|]; [|by split_and!].
  destruct (doc !! n) as [nd|] eqn:Hn; [|by split_and!]. simpl.
  assert (E : map_element f nd = map_element (set_classList g) nd)
    by (unfold map_element; by rewrite Hf).
  rewrite E. split_and!.
  - by apply same_shape_insert.
  - intros c k Hc. rewrite has_class_insert by done.
    destruct (decide (k = n)) as [->|Hne]; [|done].
    unfold Tabs.has_class. rewrite Hn. by apply Hg.
  - intros k HPk. apply list_lookup_insert_ne. intros <-. apply HPk. by apply HP.
Qed.

Lemma changes_only_add C P r c :
  c ∈ C → (∀ n, r = Some n → P n) →
  changes_only C P (update_node r (classList_add c)).
Proof.
  intros Hc HP. apply (changes_only_update _ _ _ _ (token_add c)); [done| |done].
  intros c' l Hc'. rewrite token_contains_add, bool_decide_eq_false_2; [done|].
  by intros ->.
Qed.

Lemma changes_only_remove C P r c :
  c ∈ C → (∀ n, r = Some n → P n) →
  changes_only C P (update_node r (classList_remove c)).
Proof.
  intros Hc HP. apply (changes_only_update _ _ _ _ (token_remove c)); [done| |done].
  intros c' l Hc'. rewrite token_contains_remove, bool_decide_eq_false_2; [done|].
  by intros ->.
Qed.

Lemma changes_only_toggleClass C P r c b :
  c ∈ C → (∀ n, r = Some n → P n) →
  changes_only C P (update_node r (λ e, utils.toggleClass e c (inl b))).
Proof.
  intros Hc HP.
  apply (changes_only_update _ _ _ _ (if b then token_add c else token_remove c));
    [intros e; apply toggleClass_inl | | done].
  intros c' l Hc'. assert (c' ≠ c) by (by intros ->).
  destruct b.
  - by rewrite token_contains_add, bool_decide_eq_false_2.
  - by rewrite token_contains_remove, bool_decide_eq_false_2.
Qed.

Lemma token_contains_toggle c c' l :
  token_contains c (token_toggle c' l)
  = if decide (c = c') then negb (token_contains c l) else token_contains c l.
Proof.
  unfold token_toggle. destruct (decide (c = c')) as [->|Hne].
  - destruct (token_contains c' l) eqn:E.
    + by rewrite token_contains_remove, bool_decide_eq_true_2.
    + by rewrite token_contains_add, bool_decide_eq_true_2.
  - destruct (token_contains c' l).
    + by rewrite token_contains_remove, bool_decide_eq_false_2.
    + by rewrite token_contains_add, bool_decide_eq_false_2.
Qed.

(** ** Modal: what the listeners leave alone, and a page without modal *)

(** X3. Whatever the page and the trigger, a listener of the modal
    controller changes no class other than [hidden] and no node other
    than the modal and the overlay; parents, tags and data attributes
    stay as they are. *)
Theorem modal_changes_only_hidden (r : Modal.Refs) (t : Modal.Trigger) :
  changes_only ["hidden"]
    (λ k, Modal.modal r = Some k ∨ Modal.overlay r = Some k)
    (Modal.listener r t).
Proof.
  assert (Hopen : changes_only ["hidden"]
            (λ k, Modal.modal r = Some k ∨ Modal.overlay r = Some k)
            (Modal.openModal r)).
  { apply changes_only_bind; [|intros _];
      apply changes_only_remove; [left | tauto | left | tauto]. }
  assert (Hclose : changes_only ["hidden"]
            (λ k, Modal.modal r = Some k ∨ Modal.overlay r = Some k)
            (Modal.closeModal r)).
  { apply changes_only_bind; [|intros _];
      apply changes_only_add; [left | tauto | left | tauto]. }
  destruct t as [| | |e]; simpl; try done.
  unfold Modal.onKeydown. case_bool_decide; [|apply changes_only_ret].
  apply changes_only_bind; [apply changes_only_read_node|].
  intros []; [apply changes_only_ret | done].
Qed.

(** X4. On a page without a modal window but with the overlay and the
    close button, the controller is installed all the same; then every
    click trigger and the Escape key throw, any other key returns, and no
    sequence of triggers ever changes the page. *)
Theorem modal_missing_throws (doc : Document) :
  querySelector doc None (class_sel "modal") = None →
  is_Some (querySelector doc None (class_sel "btn--close-modal")) →
  is_Some (querySelector doc None (class_sel "overlay")) →
  let r := Modal.query doc in
  Modal.init doc = Some r
  ∧ (∀ t d, Modal.listener r t d
            = match t with
              | Modal.Keydown e =>
                if bool_decide (key e = "Escape") then Thrown d else Returned () d
              | _ => Thrown d
              end)
  ∧ (∀ ts, Modal.run r ts doc = doc).
Proof.
  intros Hm Hbtn Hov r.
  assert (Hr : Modal.modal r = None) by done.
  assert (Hl : ∀ t d, Modal.listener r t d
            = match t with
              | Modal.Keydown e =>
                if bool_decide (key e = "Escape") then Thrown d else Returned () d
              | _ => Thrown d
              end).
  { intros [| | |e] d; simpl;
      unfold Modal.openModal, Modal.closeModal, Modal.onKeydown; rewrite ?Hr;
      try done. by case_bool_decide. }
  split_and!; [|done|].
  - unfold Modal.init. fold r.
    assert (Modal.btnCloseModal r = querySelector doc None (class_sel "btn--close-modal"))
      as -> by done.
    assert (Modal.overlay r = querySelector doc None (class_sel "overlay"))
      as -> by done.
    by rewrite !bool_decide_eq_true_2.
  - assert (Hrun : ∀ ts d, Modal.run r ts d = d); [|by intros ts].
    induction ts as [|t ts IH]; intros d; [done|].
    change (Modal.run r (t :: ts) d) with (Modal.run r ts (Modal.handle r d t)).
    rewrite IH. unfold Modal.handle. rewrite Hl.
    destruct t as [| | |e]; try done. by case_bool_decide.
Qed.

Lemma modal_missing_throws_witness :
  Modal.init page_without_modal = Some (Modal.query page_without_modal)
  ∧ Modal.run (Modal.query page_without_modal)
      [Modal.ClickShowModal; Modal.Keydown escape; Modal.ClickOverlay]
      page_without_modal
    = page_without_modal.
Proof.
  destruct (modal_missing_throws page_without_modal) as (H1 & _ & H2);
    [reflexivity | by eexists | by eexists |].
  split; [exact H1 | apply H2].
Defined.

(** ** Tabs: a missing panel, and what a click leaves alone *)

Lemma JS_bind_Thrown {W A B} (m : JS W A) (f : A → JS W B) w w' :
  m w = Thrown w' → (m ≫= f) w = Thrown w'.
Proof. intros H. unfold mbind, JS_bind. by rewrite H. Qed.

Lemma filter_none {A} (P : A → Prop) `{∀ x, Decision (P x)} (l : list A) :
  (∀ k, k ∈ l → ¬ P k) → filter P l = [].
Proof.
  induction l as [|x l IH]; intros HP; [done|].
  rewrite filter_cons_False by (apply HP; left).
  apply IH. intros k Hk. apply HP. by right.
Qed.

(** X5. A click on a tab button whose [data-tab] key is made of CSS name
    characters and names no element: the panel query returns [null] and
    the callback throws, after it has made the clicked button the only
    active one and deactivated every panel. *)
Theorem tab_click_missing_panel (doc : Document) (r : Tabs.Refs)
    (evt : Event NodeId) (b : NodeId) (tab : option string) :
  Tabs.init doc = Some r →
  node_closest doc (target evt) Tabs.tabBtnSelector = Some b →
  b ∈ Tabs.tabButtons r →
  (λ nd, dataset (element nd) !! "tab") <$> doc !! b = Some tab →
  css_name (Tabs.template_value tab) = true →
  Tabs.template_value tab ≠ "active" →
  querySelector doc (Some (Tabs.operationsZone r)) (Tabs.contentSelector tab) = None →
  ∃ doc', Tabs.listener r evt doc = Thrown doc'
    ∧ Tabs.activeButtons r doc' = [b]
    ∧ Tabs.activePanels r doc' = [].
Proof.
  intros Hinit Hclosest Hb Htab _ Hkey Hpanel.
  destruct (init_inv doc r Hinit) as (_ & _ & Hbtns & Htabs).
  assert (Hvb : Forall (λ n, (n < length doc)%nat) (Tabs.tabButtons r))
    by (rewrite Hbtns; apply querySelectorAll_valid).
  assert (Hvt : Forall (λ n, (n < length doc)%nat) (Tabs.tabs r))
    by (rewrite Htabs; apply querySelectorAll_valid).
  assert (Hblt : (b < length doc)%nat) by (by rewrite Forall_forall in Hvb; apply Hvb).
  destruct (forEach_remove_class Tabs.tabActive _ doc Hvb) as (doc1 & Hrun1 & Hs1 & Hc1).
  destruct (forEach_remove_class Tabs.contentActive (Tabs.tabs r) doc1)
    as (doc2 & Hrun2 & Hs2 & Hc2).
  { by rewrite (same_shape_length _ _ Hs1). }
  destruct (update_add_class doc2 b Tabs.tabActive) as (doc3 & Hrun3 & Hs3 & Hc3).
  { by rewrite (same_shape_length _ _ Hs2), (same_shape_length _ _ Hs1). }
  assert (Hs03 : same_shape doc doc3) by eauto using same_shape_trans.
  assert (Hread : read_node (Some b) (λ e, dataset e !! "tab") doc3 = Returned tab doc3).
  { pose proof (same_shape_lookup _ _ b Hs03) as Hshape.
    unfold read_node. destruct (doc3 !! b) as [nd3|], (doc !! b) as [nd|]; try done.
    simpl in *. injection Hshape as _ _ Hd. injection Htab as <-. by rewrite Hd. }
  assert (Hquery : querySelector doc3 (Some (Tabs.operationsZone r))
                     (Tabs.contentSelector tab) = None).
  { unfold querySelector. rewrite (querySelectorAll_stable doc doc3); [done..|].
    intros c k Hc. apply list_elem_of_singleton in Hc as ->.
    rewrite Hc3, Hc2, Hc1.
    pose proof (contentSelector_not_tabActive tab).
    pose proof (contentSelector_not_contentActive tab Hkey).
    rewrite !(bool_decide_eq_false_2 (_ ∧ _)) by tauto.
    by rewrite !andb_true_r, orb_false_r. }
  exists doc3. split_and!.
  - unfold Tabs.listener, utils.delegatedTargetSelectorEventListener,
      utils.delegatedEventListener.
    replace (utils.selectorMatchingStrategy Tabs.tabBtnSelector evt doc) with true.
    + erewrite JS_bind_Thrown; [done|]. unfold Tabs.onTabClick.
      erewrite JS_bind_Returned by reflexivity. rewrite Hclosest.
      erewrite JS_bind_Returned by exact Hrun1.
      erewrite JS_bind_Returned by exact Hrun2.
      erewrite JS_bind_Returned by exact Hrun3.
      erewrite JS_bind_Returned by exact Hread.
      erewrite JS_bind_Returned by reflexivity.
      by rewrite Hquery.
    + symmetry. unfold utils.selectorMatchingStrategy. rewrite Hclosest.
      rewrite (bool_decide_eq_true_2 (is_Some (Some b))) by eauto.
      apply orb_true_r.
  - apply filter_only; [rewrite Hbtns; apply querySelectorAll_NoDup | done |].
    intros k Hk. rewrite Hc3, Hc2, Hc1.
    rewrite (bool_decide_eq_true_2 (_ ∧ k ∈ Tabs.tabButtons r)) by done.
    rewrite andb_false_r. simpl. rewrite bool_decide_eq_true. tauto.
  - apply filter_none. intros k Hk. rewrite Hc3, Hc2.
    rewrite (bool_decide_eq_true_2 (_ ∧ k ∈ Tabs.tabs r)) by done.
    rewrite andb_false_r. simpl. done.
Qed.

Lemma tab_click_missing_panel_witness :
  ∃ doc', Tabs.listener sample_tabs click_label page_without_panel = Thrown doc'
    ∧ Tabs.activeButtons sample_tabs doc' = [9%nat]
    ∧ Tabs.activePanels sample_tabs doc' = [].
Proof.
  apply (tab_click_missing_panel page_without_panel sample_tabs click_label
           9%nat (Some "4"));
    [ reflexivity | reflexivity | compute_done | reflexivity | reflexivity | done
    | reflexivity ].
Defined.

(** X6. Whatever the page and the click, the tab listener changes no
    class other than the two active classes, and no parent, tag or data
    attribute; a click that is neither on a tab button nor inside one
    returns [null] and leaves the page untouched. *)
Theorem tab_click_changes_only_active (r : Tabs.Refs) (evt : Event NodeId) :
  changes_only [Tabs.tabActive; Tabs.contentActive] (λ _, True) (Tabs.listener r evt)
  ∧ ∀ doc, node_closest doc (target evt) Tabs.tabBtnSelector = None →
           Tabs.listener r evt doc = Returned None doc.
Proof.
  split.
  - intros doc. unfold Tabs.listener, utils.delegatedTargetSelectorEventListener,
      utils.delegatedEventListener.
    destruct (utils.selectorMatchingStrategy Tabs.tabBtnSelector evt doc);
      [|by split_and!].
    revert doc. apply changes_only_bind; [|intros a; apply changes_only_ret].
    unfold Tabs.onTabClick.
    apply changes_only_bind; [apply changes_only_get_world|]. intros doc.
    apply changes_only_bind.
    { apply changes_only_forEach. intros btn.
      apply changes_only_remove; [left | done]. }
    intros _. apply changes_only_bind.
    { apply changes_only_forEach. intros zone.
      apply changes_only_remove; [right; left | done]. }
    intros _. apply changes_only_bind; [apply changes_only_add; [left | done]|].
    intros _. apply changes_only_bind; [apply changes_only_read_node|].
    intros tab. apply changes_only_bind; [apply changes_only_get_world|].
    intros doc'. apply changes_only_add; [right; left | done].
  - intros doc Hnone. unfold Tabs.listener, utils.delegatedTargetSelectorEventListener,
      utils.delegatedEventListener.
    replace (utils.selectorMatchingStrategy Tabs.tabBtnSelector evt doc) with false;
      [done|].
    symmetry. unfold utils.selectorMatchingStrategy. rewrite Hnone.
    rewrite (bool_decide_eq_false_2 (is_Some None)) by (by intros [? ?]).
    rewrite orb_false_r.
    destruct (node_matches doc (target evt) Tabs.tabBtnSelector) eqn:E; [|done].
    apply matches_closest in E. rewrite Hnone in E. by destruct E.
Qed.

(** ** Lazy images: start, life of an image, and what a delivery leaves alone *)

Lemma forEach_observe (l : list NodeId) (w : LazyImages.World) :
  NoDup (LazyImages.observed w ++ l) →
  forEach LazyImages.observe l w
  = Returned () {| LazyImages.page := LazyImages.page w;
                   LazyImages.observed := LazyImages.observed w ++ l;
                   LazyImages.loadListeners := LazyImages.loadListeners w |}.
Proof.
  revert w. induction l as [|n l IH]; intros w Hnd.
  - simpl. rewrite app_nil_r. by destruct w.
  - simpl. unfold mbind, JS_bind, LazyImages.observe at 1, modify_world.
    apply NoDup_app in Hnd as (Hw & Hdisj & Hl).
    rewrite bool_decide_eq_false_2 by (intros Hin; apply (Hdisj n Hin); left).
    rewrite IH; simpl.
    + by rewrite <- app_assoc.
    + rewrite <- app_assoc. simpl. apply NoDup_app. done.
Qed.

Lemma lazySelector_matches (doc : Document) (n : NodeId) :
  node_elt_matches doc LazyImages.lazySelector n = true →
  ∃ nd v, doc !! n = Some nd ∧ dataset (element nd) !! "src" = Some v
          ∧ tagName (element nd) = "img"
          ∧ classList_contains "lazy-img" (element nd) = true.
Proof.
  unfold node_elt_matches. destruct (doc !! n) as [nd|]; [|done].
  unfold elt_matches. simpl. rewrite !andb_true_r.
  intros [[Htag Hcls]%andb_true_iff Hdata]%andb_true_iff.
  apply bool_decide_eq_true in Htag. apply bool_decide_eq_true in Hdata as [v Hv].
  by exists nd, v.
Qed.

Lemma lazy_init_observes_aux (doc : Document) :
  LazyImages.init doc
  = {| LazyImages.page := doc;
       LazyImages.observed := querySelectorAll doc None LazyImages.lazySelector;
       LazyImages.loadListeners := [] |}
  ∧ ∀ n, n ∈ LazyImages.observed (LazyImages.init doc) →
      ∃ nd v, doc !! n = Some nd ∧ dataset (element nd) !! "src" = Some v
              ∧ tagName (element nd) = "img"
              ∧ classList_contains "lazy-img" (element nd) = true.
Proof.
  assert (E : LazyImages.init doc
    = {| LazyImages.page := doc;
         LazyImages.observed := querySelectorAll doc None LazyImages.lazySelector;
         LazyImages.loadListeners := [] |}).
  { unfold LazyImages.init. rewrite forEach_observe; [done|].
    apply querySelectorAll_NoDup. }
  rewrite E. split; [done|].
  intros n Hn. simpl in Hn. apply querySelectorAll_elem in Hn as [_ Hn].
  by apply lazySelector_matches.
Qed.

(** X7. When the script starts, the observer tracks exactly the
    [img[data-src].lazy-img] elements of the page, in document order and
    once each; every one of them exists, is an image, has a [data-src]
    value and carries the placeholder class.  The page is untouched and
    no [load] listener is registered. *)
Theorem lazy_init_observes (doc : Document) :
  LazyImages.init doc
  = {| LazyImages.page := doc;
       LazyImages.observed := querySelectorAll doc None LazyImages.lazySelector;
       LazyImages.loadListeners := [] |}
  ∧ NoDup (LazyImages.observed (LazyImages.init doc))
  ∧ ∀ n, n ∈ LazyImages.observed (LazyImages.init doc) →
      ∃ nd v, doc !! n = Some nd ∧ dataset (element nd) !! "src" = Some v
              ∧ tagName (element nd) = "img"
              ∧ classList_contains "lazy-img" (element nd) = true.
Proof.
  destruct (lazy_init_observes_aux doc) as (E & Hall).
  split_and!; [done | rewrite E; apply querySelectorAll_NoDup | done].
Qed.

Lemma lazy_load_keeps_src (n : NodeId) (l : list NodeId) (w : LazyImages.World) :
  LazyImages.src_of
    (final_world
       (forEach (λ _, LazyImages.on_page
                        (update_node (Some n) (classList_remove "lazy-img"))) l w)) n
  = LazyImages.src_of w n
  ∧ LazyImages.observed
      (final_world
         (forEach (λ _, LazyImages.on_page
                          (update_node (Some n) (classList_remove "lazy-img"))) l w))
    = LazyImages.observed w.
Proof.
  revert w. induction l as [|x l IH]; intros w; [done|].
  destruct (LazyImages.page w !! n) as [nd|] eqn:Hn.
  - set (w1 := {| LazyImages.page :=
                    <[n := map_element (classList_remove "lazy-img") nd]> (LazyImages.page w);
                  LazyImages.observed := LazyImages.observed w;
                  LazyImages.loadListeners := LazyImages.loadListeners w |}).
    assert (Hstep : LazyImages.on_page
                      (update_node (Some n) (classList_remove "lazy-img")) w
                    = Returned () w1).
    { unfold LazyImages.on_page. by rewrite (update_node_Some _ _ _ _ Hn). }
    simpl. erewrite JS_bind_Returned by exact Hstep.
    destruct (IH w1) as [-> ->]. split; [|done].
    unfold LazyImages.src_of. simpl.
    rewrite list_lookup_insert_eq by (by eapply lookup_lt_Some). by rewrite Hn.
  - assert (Hstep : LazyImages.on_page
                      (update_node (Some n) (classList_remove "lazy-img")) w
                    = Thrown w).
    { unfold LazyImages.on_page, update_node. rewrite Hn. by destruct w. }
    simpl. by erewrite JS_bind_Thrown by exact Hstep.
Qed.

(** X8. The life of a lazy image [n] that the observer tracks.  A
    [load] event before any delivery changes nothing.  A delivery whose
    first entry reports [n] intersecting gives [n] the value of its
    [data-src] as source and stops tracking it, while the placeholder
    class stays; the [load] event that follows removes the class and
    keeps the source. *)
Theorem lazy_image_life (doc : Document) (n : NodeId) (rest : list LazyImages.Entry) :
  n ∈ LazyImages.observed (LazyImages.init doc) →
  let w0 := LazyImages.init doc in
  let w1 := LazyImages.handle w0 (LazyImages.Notify (entry_of n true :: rest)) in
  let w2 := LazyImages.handle w1 (LazyImages.Loaded n) in
  LazyImages.handle w0 (LazyImages.Loaded n) = w0
  ∧ ∃ v, (λ nd, dataset (element nd) !! "src") <$> doc !! n = Some (Some v)
      ∧ LazyImages.src_of w1 n = Some v
      ∧ (n ∉ LazyImages.observed w1)
      ∧ Tabs.has_class (LazyImages.page w1) "lazy-img" n = true
      ∧ Tabs.has_class (LazyImages.page w2) "lazy-img" n = false
      ∧ LazyImages.src_of w2 n = Some v
      ∧ (n ∉ LazyImages.observed w2).
Proof.
  intros Hn w0 w1 w2.
  destruct (lazy_init_observes_aux doc) as (E & Hall).
  destruct (Hall n Hn) as (nd & v & Hnd & Hv & _ & Hcls).
  assert (Hnd0 : LazyImages.page w0 !! n = Some nd) by (unfold w0; by rewrite E).
  split; [unfold w0; by rewrite E|]. exists v.
  destruct (lazy_src_after_first_entry w0 (entry_of n true) rest nd eq_refl Hnd0)
    as (Hsrc & Hobs & Hclasses).
  fold w1 in Hsrc, Hobs, Hclasses. simpl in Hsrc, Hobs, Hclasses.
  rewrite Hv in Hsrc. simpl in Hsrc.
  assert (Hnode1 : is_Some (LazyImages.page w1 !! n)).
  { unfold LazyImages.src_of in Hsrc. destruct (LazyImages.page w1 !! n); [eauto|done]. }
  assert (Hlisten : n ∈ LazyImages.loadListeners w1).
  { unfold w1, LazyImages.handle.
    rewrite (lazy_callback_first_entry w0 (entry_of n true) rest nd eq_refl Hnd0).
    simpl. apply elem_of_app. right. by left. }
  destruct (lazy_load_keeps_src n
              (filter (λ x, x = n) (LazyImages.loadListeners w1)) w1) as [Hs2 Ho2].
  assert (Hw2 : w2 = final_world
            (forEach (λ _, LazyImages.on_page
                             (update_node (Some n) (classList_remove "lazy-img")))
                     (filter (λ x, x = n) (LazyImages.loadListeners w1)) w1))
    by done.
  rewrite <- Hw2 in Hs2, Ho2.
  split_and!.
  - by rewrite Hnd, <- Hv.
  - done.
  - done.
  - specialize (Hclasses n). unfold Tabs.has_class.
    destruct (LazyImages.page w1 !! n) as [nd1|]; [|by destruct Hnode1].
    rewrite Hnd0 in Hclasses. simpl in Hclasses. injection Hclasses as Hcl.
    unfold classList_contains in *. by rewrite Hcl.
  - by apply lazy_load_removes_blur.
  - by rewrite Hs2.
  - by rewrite Ho2.
Qed.

Lemma lazy_image_life_witness :
  let w1 := LazyImages.handle (LazyImages.init sample_page)
              (LazyImages.Notify [entry_of 17%nat true]) in
  LazyImages.src_of w1 17%nat = Some "img/grow.jpg"
  ∧ Tabs.has_class (LazyImages.page (LazyImages.handle w1 (LazyImages.Loaded 17%nat)))
      "lazy-img" 17%nat = false.
Proof.
  intros w1.
  destruct (lazy_image_life sample_page 17%nat []) as (_ & v & Hv & H1 & _ & _ & H2 & _);
    [compute_done|].
  fold w1 in H1, H2. split; [|exact H2].
  rewrite H1. injection Hv as <-. reflexivity.
Defined.

(** X9. A delivery of the observer touches only the target of its first
    entry: every other node of the page is as before, and is tracked
    after the delivery exactly when it was before.  An empty delivery
    changes nothing at all. *)
Theorem lazy_delivery_touches_first_target
    (w : LazyImages.World) (entries : list LazyImages.Entry) (k : NodeId) :
  head (LazyImages.entry_target <$> entries) ≠ Some k →
  let w' := LazyImages.handle w (LazyImages.Notify entries) in
  LazyImages.page w' !! k = LazyImages.page w !! k
  ∧ (k ∈ LazyImages.observed w' ↔ k ∈ LazyImages.observed w)
  ∧ (entries = [] → w' = w).
Proof.
  intros Hk w'. unfold w', LazyImages.handle.
  destruct entries as [|entry rest]; [done|].
  assert (Hne : k ≠ LazyImages.entry_target entry) by (intros ->; by apply Hk).
  destruct (LazyImages.isIntersecting entry) eqn:Hint;
    [|by rewrite lazy_callback_not_intersecting].
  destruct (LazyImages.page w !! LazyImages.entry_target entry) as [nd|] eqn:Hnd.
  - rewrite (lazy_callback_first_entry w entry rest nd Hint Hnd). simpl.
    split_and!; [by rewrite list_lookup_insert_ne | | done].
    rewrite list_elem_of_filter. tauto.
  - unfold LazyImages.lazyLodaderObs. rewrite Hint.
    unfold mbind, JS_bind, LazyImages.unobserve, LazyImages.on_page, modify_world,
      read_node. simpl. rewrite Hnd. simpl.
    split_and!; [done | | done]. rewrite list_elem_of_filter. tauto.
Qed.

Lemma lazy_delivery_touches_first_target_witness :
  let w' := LazyImages.handle (LazyImages.init sample_page)
              (LazyImages.Notify both_images_near) in
  LazyImages.page w' !! 17%nat = sample_page !! 17%nat
  ∧ (17%nat ∈ LazyImages.observed w' ↔ 17%nat ∈ [16; 17]%nat).
Proof.
  intros w'.
  destruct (lazy_delivery_touches_first_target (LazyImages.init sample_page)
              both_images_near 17%nat) as (H1 & H2 & _); [compute_done|].
  split; [exact H1 | exact H2].
Defined.

(** ** Sections and the sticky header *)

Lemma changes_only_forEach_in {A} C P (f : A → JS Document ()) (l : list A) :
  (∀ x, x ∈ l → changes_only C P (f x)) → changes_only C P (forEach f l).
Proof.
  induction l as [|x l IH]; intros Hf; [apply changes_only_ret|].
  simpl. apply changes_only_bind; [apply Hf; left | intros _].
  apply IH. intros y Hy. apply Hf. by right.
Qed.

(** The effect of [nodes.forEach(n => n.classList.add(c))]. *)
Lemma forEach_add_class c (ns : list NodeId) (doc : Document) :
  Forall (λ n, (n < length doc)%nat) ns →
  ∃ doc', forEach (λ n, update_node (Some n) (classList_add c)) ns doc
          = Returned () doc'
    ∧ same_shape doc doc'
    ∧ ∀ c' k, Tabs.has_class doc' c' k
              = Tabs.has_class doc c' k || bool_decide (c' = c ∧ k ∈ ns).
Proof.
  revert doc. induction ns as [|n ns IH]; intros doc Hns.
  - exists doc. split_and!; [done..|]. intros c' k.
    rewrite (bool_decide_eq_false_2 (c' = c ∧ k ∈ [])) by (by intros [_ ?%elem_of_nil]).
    by rewrite orb_false_r.
  - apply Forall_cons in Hns as [Hn Hns].
    destruct (update_add_class doc n c Hn) as (doc1 & Hrun1 & Hs1 & Hc1).
    destruct (IH doc1) as (doc' & Hrun & Hs & Hc).
    { by rewrite (same_shape_length _ _ Hs1). }
    exists doc'. split_and!.
    + simpl. by erewrite JS_bind_Returned by exact Hrun1.
    + by eapply same_shape_trans.
    + intros c' k. rewrite Hc, Hc1, <- orb_assoc. f_equal.
      destruct (decide (c' = c ∧ k ∈ n :: ns)) as [[-> Hin]|Hno].
      * rewrite (bool_decide_eq_true_2 (c = c ∧ k ∈ n :: ns)) by done.
        apply elem_of_cons in Hin as [->|Hin].
        -- by rewrite (bool_decide_eq_true_2 (c = c ∧ n = n)).
        -- rewrite (bool_decide_eq_true_2 (c = c ∧ k ∈ ns)) by done.
           apply orb_true_r.
      * rewrite (bool_decide_eq_false_2 (c' = c ∧ k ∈ n :: ns)) by done.
        rewrite elem_of_cons in Hno.
        by rewrite !bool_decide_eq_false_2 by tauto.
Qed.

(** X10. When the script starts, every [.section] element gets the
    hidden class and is observed; the elements that match [.section] are
    the same afterwards, no other class changes, and no node that is not
    a section is touched. *)
Theorem sections_init_hides_all (doc : Document) :
  let sections := querySelectorAll doc None Sections.sectionSelector in
  ∃ doc', Sections.init doc = Returned sections doc'
    ∧ (∀ k, k ∈ sections → Tabs.has_class doc' Sections.sectionHidden k = true)
    ∧ querySelectorAll doc' None Sections.sectionSelector = sections
    ∧ (∀ c k, c ≠ Sections.sectionHidden →
         Tabs.has_class doc' c k = Tabs.has_class doc c k)
    ∧ (∀ k, k ∉ sections → doc' !! k = doc !! k).
Proof.
  intros sections.
  destruct (forEach_add_class Sections.sectionHidden sections doc)
    as (doc' & Hrun & Hs & Hc); [apply querySelectorAll_valid|].
  assert (Hframe : changes_only [Sections.sectionHidden] (λ k, k ∈ sections)
            (forEach (λ section, update_node (Some section)
                                   (classList_add Sections.sectionHidden)) sections)).
  { apply changes_only_forEach_in. intros x Hx.
    apply changes_only_add; [left | by intros n [= <-]]. }
  destruct (Hframe doc) as (_ & _ & Hnodes). rewrite Hrun in Hnodes. simpl in Hnodes.
  assert (Hother : ∀ c k, c ≠ Sections.sectionHidden →
            Tabs.has_class doc' c k = Tabs.has_class doc c k).
  { intros c k Hne. rewrite Hc, bool_decide_eq_false_2 by tauto. apply orb_false_r. }
  exists doc'. split_and!; [| | |done|done].
  - unfold Sections.init. erewrite JS_bind_Returned by reflexivity.
    fold sections. by erewrite JS_bind_Returned by exact Hrun.
  - intros k Hk. rewrite Hc, (bool_decide_eq_true_2 (_ ∧ k ∈ sections)) by done.
    apply orb_true_r.
  - apply querySelectorAll_stable; [done|]. intros c k Hin.
    apply list_elem_of_singleton in Hin as ->. by apply Hother.
Qed.

(** One [toggleClass] on a node of the page. *)
Lemma update_toggleClass (doc : Document) (n : NodeId) (c : string) (b : bool) :
  is_Some (doc !! n) →
  ∃ doc', update_node (Some n) (λ e, utils.toggleClass e c (inl b)) doc
          = Returned () doc'
    ∧ Tabs.has_class doc' c n = b
    ∧ (∀ c', c' ≠ c → Tabs.has_class doc' c' n = Tabs.has_class doc c' n)
    ∧ (∀ k, k ≠ n → doc' !! k = doc !! k)
    ∧ same_shape doc doc'.
Proof.
  intros [nd Hnd]. eexists. split; [by apply update_node_Some|].
  pose proof (lookup_lt_Some _ _ _ Hnd) as Hlt.
  unfold Tabs.has_class. split_and!.
  - rewrite list_lookup_insert_eq by done. unfold map_element, utils.toggleClass.
    destruct b; cbn [element].
    + by rewrite classList_contains_add, bool_decide_eq_true_2.
    + by rewrite classList_contains_remove, bool_decide_eq_true_2.
  - intros c' Hc'. rewrite list_lookup_insert_eq, Hnd by done.
    unfold map_element, utils.toggleClass. destruct b; cbn [element].
    + by rewrite classList_contains_add, bool_decide_eq_false_2.
    + by rewrite classList_contains_remove, bool_decide_eq_false_2.
  - intros k Hk. by rewrite list_lookup_insert_ne.
  - assert (E : map_element (λ e, utils.toggleClass e c (inl b)) nd
              = map_element (set_classList (if b then token_add c else token_remove c)) nd)
      by (unfold map_element; by rewrite toggleClass_inl).
    rewrite E. by apply same_shape_insert.
Qed.

(** X11. A delivery of the section observer treats its first entry: the
    target carries the hidden class afterwards exactly when it does not
    intersect, so that showing and hiding alternate as often as the
    deliveries do; the other classes of the target and the other nodes
    are untouched.  An empty delivery throws and changes nothing. *)
Theorem section_reveal_follows_entry
    (doc : Document) (entry : LazyImages.Entry) (rest : list LazyImages.Entry) :
  is_Some (doc !! LazyImages.entry_target entry) →
  let n := LazyImages.entry_target entry in
  (∃ doc', Sections.sectionObs (entry :: rest) doc = Returned () doc'
     ∧ Tabs.has_class doc' Sections.sectionHidden n
       = negb (LazyImages.isIntersecting entry)
     ∧ (∀ c, c ≠ Sections.sectionHidden →
          Tabs.has_class doc' c n = Tabs.has_class doc c n)
     ∧ (∀ k, k ≠ n → doc' !! k = doc !! k)
     ∧ is_Some (doc' !! n))
  ∧ Sections.sectionObs [] doc = Thrown doc.
Proof.
  intros Hn n. split; [|done].
  destruct (update_toggleClass doc n Sections.sectionHidden
              (negb (LazyImages.isIntersecting entry)) Hn)
    as (doc' & Hrun & Hc & Hother & Hnodes & Hs).
  exists doc'. split_and!; try done.
  apply lookup_lt_is_Some. rewrite (same_shape_length _ _ Hs).
  by apply lookup_lt_is_Some.
Qed.

Lemma section_reveal_follows_entry_witness :
  ∃ doc1 doc2,
    Sections.sectionObs [entry_of 11%nat true] sample_site = Returned () doc1
    ∧ Tabs.has_class doc1 Sections.sectionHidden 11%nat = false
    ∧ Sections.sectionObs [entry_of 11%nat false; entry_of 10%nat true] doc1
      = Returned () doc2
    ∧ Tabs.has_class doc2 Sections.sectionHidden 11%nat = true.
Proof.
  destruct (section_reveal_follows_entry sample_site (entry_of 11%nat true) [])
    as ((doc1 & H1 & H1c & _ & _ & H1n) & _); [compute_done|].
  destruct (section_reveal_follows_entry doc1 (entry_of 11%nat false)
              [entry_of 10%nat true])
    as ((doc2 & H2 & H2c & _) & _); [exact H1n|].
  exists doc1, doc2. split_and!; [exact H1 | exact H1c | exact H2 | exact H2c].
Defined.

(** X12. A delivery of the header observer makes the navigation bar
    sticky exactly when its first entry does not intersect, whatever the
    target of the entry; the other classes of the bar and the other nodes
    are untouched.  Without a navigation bar, or on an empty delivery,
    the callback throws and changes nothing. *)
Theorem sticky_follows_header
    (doc : Document) (nav : NodeId)
    (entry : LazyImages.Entry) (rest : list LazyImages.Entry) :
  is_Some (doc !! nav) →
  (∃ doc', Header.headerObs (Some nav) (entry :: rest) doc = Returned () doc'
     ∧ Tabs.has_class doc' "sticky" nav = negb (LazyImages.isIntersecting entry)
     ∧ (∀ c, c ≠ "sticky" → Tabs.has_class doc' c nav = Tabs.has_class doc c nav)
     ∧ (∀ k, k ≠ nav → doc' !! k = doc !! k))
  ∧ Header.headerObs (Some nav) [] doc = Thrown doc
  ∧ Header.headerObs None (entry :: rest) doc = Thrown doc.
Proof.
  intros Hn. split_and!; [|done..].
  destruct (update_toggleClass doc nav "sticky"
              (negb (LazyImages.isIntersecting entry)) Hn)
    as (doc' & Hrun & Hc & Hother & Hnodes & _).
  by exists doc'.
Qed.

Lemma sticky_follows_header_witness :
  ∃ doc', Header.headerObs (Some 2%nat) [entry_of 1%nat false] sample_site
          = Returned () doc'
    ∧ Tabs.has_class doc' "sticky" 2%nat = true.
Proof.
  destruct (sticky_follows_header sample_site 2%nat (entry_of 1%nat false) [])
    as ((doc' & H1 & H2 & _) & _); [compute_done|].
  exists doc'. split; [exact H1 | exact H2].
Defined.

(** ** Hover over the navigation links *)

(** The loop of [handleHover]: every link but the target of the event
    gets the opacity. *)
Lemma hover_links (s : string) (t : NodeId) (links : list NodeId) (w : Header.World) :
  ∃ w', forEach (λ el, if decide (el ≠ t) then Header.set_opacity el s else mret ())
                links w = Returned () w'
    ∧ Header.page w' = Header.page w
    ∧ ∀ k, Header.opacity w' !! k
           = if decide (k ∈ links ∧ k ≠ t) then Some s else Header.opacity w !! k.
Proof.
  revert w. induction links as [|el links IH]; intros w.
  - exists w. split_and!; [done..|]. intros k.
    rewrite decide_False; [done|]. by intros [?%elem_of_nil _].
  - set (w1 := if decide (el ≠ t)
               then {| Header.page := Header.page w;
                       Header.opacity := <[el := s]> (Header.opacity w) |}
               else w).
    assert (Hstep : (if decide (el ≠ t) then Header.set_opacity el s else mret ()) w
                    = Returned () w1).
    { unfold w1. by destruct (decide (el ≠ t)). }
    destruct (IH w1) as (w' & Hrun & Hpage & Hop).
    exists w'. split_and!.
    + simpl. by erewrite JS_bind_Returned by exact Hstep.
    + rewrite Hpage. unfold w1. by destruct (decide (el ≠ t)).
    + intros k. rewrite Hop.
      destruct (decide (k ∈ links ∧ k ≠ t)) as [[Hin Hne]|Hno].
      * rewrite decide_True; [done|]. split; [by right | done].
      * unfold w1. destruct (decide (el ≠ t)) as [Het|Het]; simpl.
        -- destruct (decide (k = el)) as [->|Hkel].
           ++ rewrite lookup_insert_eq, decide_True; [done|]. split; [left | done].
           ++ rewrite lookup_insert_ne by done.
              rewrite (decide_False (P := k ∈ el :: links ∧ k ≠ t)); [done|].
              rewrite elem_of_cons. tauto.
        -- rewrite (decide_False (P := k ∈ el :: links ∧ k ≠ t)); [done|].
           rewrite elem_of_cons. apply dec_stable in Het. subst el. tauto.
Qed.

Lemma handleHover_spec (n : NodeId) (s : string) (this : NodeId)
    (evt : Event NodeId) (w : Header.World) :
  let links := querySelectorAll (Header.page w) (Some n) Header.navLinkSel in
  match querySelector (Header.page w) (Some n) Header.imgSelector with
  | Some img =>
    ∃ w', Header.handleHover (Some n) s this evt w = Returned () w'
      ∧ Header.page w' = Header.page w
      ∧ ∀ k, Header.opacity w' !! k
             = if decide ((k ∈ links ∧ k ≠ target evt) ∨ k = img) then Some s
               else Header.opacity w !! k
  | None =>
    ∃ w', Header.handleHover (Some n) s this evt w = Thrown w'
      ∧ Header.page w' = Header.page w
      ∧ ∀ k, Header.opacity w' !! k
             = if decide (k ∈ links ∧ k ≠ target evt) then Some s
               else Header.opacity w !! k
  end.
Proof.
  intros links.
  destruct (hover_links s (target evt) links w) as (w1 & Hrun & Hpage & Hop).
  unfold Header.handleHover.
  destruct (querySelector (Header.page w) (Some n) Header.imgSelector) as [img|]
    eqn:Himg.
  - eexists. split_and!.
    + erewrite JS_bind_Returned by reflexivity. fold links.
      erewrite JS_bind_Returned by exact Hrun. rewrite Himg. reflexivity.
    + done.
    + intros k. simpl. destruct (decide (k = img)) as [->|Hne].
      * rewrite lookup_insert_eq, decide_True; [done | by right].
      * rewrite lookup_insert_ne, Hop by done.
        destruct (decide (k ∈ links ∧ k ≠ target evt)).
        -- rewrite decide_True; [done | by left].
        -- rewrite decide_False; [done | tauto].
  - exists w1. split_and!; [|done..].
    erewrite JS_bind_Returned by reflexivity. fold links.
    erewrite JS_bind_Returned by exact Hrun. by rewrite Himg.
Qed.

(** X13. A [mouseover] or [mouseout] whose target is a navigation link
    or inside one, on a bar that holds an image: the listener gives the
    opacity (["0.5"] on over, ["1"] on out) to every navigation link of
    the bar other than the target of the event and to the first image of
    the bar, and to nothing else; the page itself is unchanged.  Hence a
    link whose label was hovered is dimmed like the others. *)
Theorem hover_sets_opacity (nav img : NodeId) (evt : Event NodeId) (w : Header.World) :
  is_Some (node_closest (Header.page w) (target evt) Header.navLinkSel) →
  querySelector (Header.page w) (Some nav) Header.imgSelector = Some img →
  let links := querySelectorAll (Header.page w) (Some nav) Header.navLinkSel in
  let result (s : string) (o : Outcome Header.World (option ())) :=
    ∃ w', o = Returned (Some ()) w'
      ∧ Header.page w' = Header.page w
      ∧ ∀ k, Header.opacity w' !! k
             = if decide ((k ∈ links ∧ k ≠ target evt) ∨ k = img) then Some s
               else Header.opacity w !! k in
  result "0.5" (Header.onMouseover (Some nav) evt w)
  ∧ result "1" (Header.onMouseout (Some nav) evt w).
Proof.
  intros Hclosest Himg links result.
  assert (Hgen : ∀ s, result s
            (utils.delegatedTargetSelectorEventListener Header.navLinkSel
               (Header.handleHover (Some nav) s) evt w)).
  { intros s. pose proof (handleHover_spec nav s (target evt) evt w) as H.
    rewrite Himg in H. destruct H as (w' & Hrun & Hpage & Hop).
    exists w'. split_and!; [|done..].
    unfold utils.delegatedTargetSelectorEventListener, utils.delegatedEventListener.
    replace (utils.selectorMatchingStrategy Header.navLinkSel evt w) with true.
    - by erewrite JS_bind_Returned by exact Hrun.
    - symmetry. unfold utils.selectorMatchingStrategy.
      rewrite (bool_decide_eq_true_2 _ Hclosest). apply orb_true_r. }
  split; apply Hgen.
Qed.

Lemma hover_sets_opacity_witness :
  let w := {| Header.page := sample_site; Header.opacity := ∅ |} in
  ∃ w', Header.onMouseover (Some 2%nat) {| target := 9%nat; key := "" |} w
        = Returned (Some ()) w'
    ∧ Header.opacity w' !! 6%nat = Some "0.5"
    ∧ Header.opacity w' !! 8%nat = Some "0.5"
    ∧ Header.opacity w' !! 3%nat = Some "0.5"
    ∧ Header.opacity w' !! 9%nat = None.
Proof.
  intros w.
  destruct (hover_sets_opacity 2%nat 3%nat {| target := 9%nat; key := "" |} w)
    as ((w' & Hrun & _ & Hop) & _); [compute_done | reflexivity |].
  exists w'. split; [exact Hrun|].
  rewrite !Hop. split_and!; reflexivity.
Defined.

(** X14. On a navigation bar without an image the hover callback throws,
    after it has given the opacity to every navigation link other than
    the target of the event; without a navigation bar it throws at
    once. *)
Theorem hover_without_image (nav : NodeId) (s : string) (this : NodeId)
    (evt : Event NodeId) (w : Header.World) :
  querySelector (Header.page w) (Some nav) Header.imgSelector = None →
  (∃ w', Header.handleHover (Some nav) s this evt w = Thrown w'
     ∧ Header.page w' = Header.page w
     ∧ ∀ k, Header.opacity w' !! k
            = if decide (k ∈ querySelectorAll (Header.page w) (Some nav) Header.navLinkSel
                         ∧ k ≠ target evt)
              then Some s else Header.opacity w !! k)
  ∧ Header.handleHover None s this evt w = Thrown w.
Proof.
  intros Himg. split; [|done].
  pose proof (handleHover_spec nav s this evt w) as H. by rewrite Himg in H.
Qed.

Lemma hover_without_image_witness :
  let w := {| Header.page := sample_site; Header.opacity := ∅ |} in
  ∃ w', Header.handleHover (Some 4%nat) "0.5" 6%nat {| target := 6%nat; key := "" |} w
        = Thrown w'
    ∧ Header.opacity w' !! 8%nat = Some "0.5"
    ∧ Header.opacity w' !! 6%nat = None.
Proof.
  intros w.
  destruct (hover_without_image 4%nat "0.5" 6%nat {| target := 6%nat; key := "" |} w)
    as ((w' & Hrun & _ & Hop) & _); [reflexivity|].
  exists w'. split; [exact Hrun|]. rewrite !Hop. split; reflexivity.
Defined.

(** ** The mobile navigation toggle *)

Lemma token_toggle_twice c l : c ∉ l → token_toggle c (token_toggle c l) = l.
Proof.
  intros Hc. unfold token_toggle at 2.
  rewrite (proj2 (token_contains_false c l) Hc).
  unfold token_toggle. rewrite token_contains_add, bool_decide_eq_true_2 by done.
  simpl. unfold token_add. rewrite (proj2 (token_contains_false c l) Hc).
  unfold token_remove. rewrite filter_app, filter_cons_False, filter_nil, app_nil_r
    by (by intros ?).
  by apply token_remove_absent.
Qed.

Lemma update_classes (doc : Document) (n : NodeId) nd (g : list string → list string) :
  doc !! n = Some nd →
  ∃ doc', update_node (Some n) (set_classList g) doc = Returned () doc'
    ∧ doc' !! n = Some (map_element (set_classList g) nd)
    ∧ (∀ c, Tabs.has_class doc' c n = token_contains c (g (classList (element nd))))
    ∧ (∀ k, k ≠ n → doc' !! k = doc !! k).
Proof.
  intros Hnd. pose proof (lookup_lt_Some _ _ _ Hnd) as Hlt.
  eexists. split; [by apply update_node_Some|]. split_and!.
  - by apply list_lookup_insert_eq.
  - intros c. unfold Tabs.has_class. by rewrite list_lookup_insert_eq.
  - intros k Hk. by apply list_lookup_insert_ne.
Qed.

(** X15. A click on the logo flips the open class of the navigation
    links and keeps their other classes and every other node; a second
    click gives every class its first state again, and when the links
    were closed to begin with, the page is exactly as before. *)
Theorem nav_toggle_flips (r : MobileNav.Refs) (n : NodeId) (doc : Document) :
  MobileNav.navLinks r = Some n → is_Some (doc !! n) →
  ∃ doc1 doc2,
    MobileNav.toggleNavLinks r doc = Returned () doc1
    ∧ MobileNav.toggleNavLinks r doc1 = Returned () doc2
    ∧ Tabs.has_class doc1 MobileNav.navOpen n
      = negb (Tabs.has_class doc MobileNav.navOpen n)
    ∧ (∀ c, c ≠ MobileNav.navOpen →
         Tabs.has_class doc1 c n = Tabs.has_class doc c n)
    ∧ (∀ c, Tabs.has_class doc2 c n = Tabs.has_class doc c n)
    ∧ (∀ k, k ≠ n → doc1 !! k = doc !! k ∧ doc2 !! k = doc !! k)
    ∧ (Tabs.has_class doc MobileNav.navOpen n = false → doc2 = doc).
Proof.
  intros Hr [nd Hnd]. unfold MobileNav.toggleNavLinks. rewrite Hr.
  destruct (update_classes doc n nd (token_toggle MobileNav.navOpen) Hnd)
    as (doc1 & Hrun1 & Hn1 & Hc1 & Hk1).
  destruct (update_classes doc1 n _ (token_toggle MobileNav.navOpen) Hn1)
    as (doc2 & Hrun2 & Hn2 & Hc2 & Hk2).
  assert (Hdoc : ∀ c, Tabs.has_class doc c n = token_contains c (classList (element nd))).
  { intros c. unfold Tabs.has_class. by rewrite Hnd. }
  exists doc1, doc2. split_and!; [done | done | | | | |].
  - rewrite Hc1, Hdoc, token_contains_toggle. by rewrite decide_True.
  - intros c Hc. rewrite Hc1, Hdoc, token_contains_toggle. by rewrite decide_False.
  - intros c. rewrite Hc2, Hdoc. simpl. rewrite !token_contains_toggle.
    destruct (decide (c = MobileNav.navOpen)); [apply negb_involutive | done].
  - intros k Hk. split; [by apply Hk1|]. rewrite Hk2 by done. by apply Hk1.
  - rewrite Hdoc. intros Hclosed%token_contains_false.
    apply list_eq. intros k. destruct (decide (k = n)) as [->|Hk].
    + rewrite Hn2, Hnd. f_equal. destruct nd as [p e]. unfold map_element. simpl.
      f_equal. destruct e as [t cl d s tr]. unfold set_classList. simpl in *.
      by rewrite token_toggle_twice.
    + rewrite Hk2 by done. by apply Hk1.
Qed.

Lemma nav_toggle_flips_witness :
  ∃ doc1 doc2,
    MobileNav.toggleNavLinks sample_nav sample_site = Returned () doc1
    ∧ MobileNav.toggleNavLinks sample_nav doc1 = Returned () doc2
    ∧ Tabs.has_class doc1 MobileNav.navOpen 4%nat = true
    ∧ doc2 = sample_site.
Proof.
  destruct (nav_toggle_flips sample_nav 4%nat sample_site)
    as (doc1 & doc2 & H1 & H2 & H3 & _ & _ & _ & H4); [reflexivity | compute_done |].
  exists doc1, doc2. split_and!; [exact H1 | exact H2 | by rewrite H3 | by apply H4].
Defined.

(** X16. A resize to a width of 1000 or more leaves the navigation links
    without the open class, whatever their state, and changes nothing
    else; a second such resize changes nothing.  A resize to a smaller
    width changes nothing, open or not. *)
Theorem nav_resize_closes (r : MobileNav.Refs) (n : NodeId) (doc : Document)
    (innerWidth : Z) :
  MobileNav.navLinks r = Some n → is_Some (doc !! n) →
  (1000 ≤ innerWidth →
   ∃ doc', MobileNav.onResize r innerWidth doc = Returned () doc'
     ∧ Tabs.has_class doc' MobileNav.navOpen n = false
     ∧ (∀ c, c ≠ MobileNav.navOpen →
          Tabs.has_class doc' c n = Tabs.has_class doc c n)
     ∧ (∀ k, k ≠ n → doc' !! k = doc !! k)
     ∧ MobileNav.onResize r innerWidth doc' = Returned () doc')
  ∧ (innerWidth < 1000 → MobileNav.onResize r innerWidth doc = Returned () doc).
Proof.
  intros Hr [nd Hnd]. unfold MobileNav.onResize. rewrite Hr. split.
  - intros Hw. rewrite bool_decide_eq_true_2 by done.
    destruct (update_classes doc n nd (token_remove MobileNav.navOpen) Hnd)
      as (doc' & Hrun & Hn' & Hc & Hk).
    exists doc'. split_and!; [done | | | done |].
    + by rewrite Hc, token_contains_remove, bool_decide_eq_true_2.
    + intros c Hne. rewrite Hc, token_contains_remove, bool_decide_eq_false_2 by done.
      unfold Tabs.has_class. by rewrite Hnd.
    + eapply update_node_id; [exact Hn'|]. apply classList_remove_absent.
      unfold map_element, classList_contains, set_classList. cbn [element classList].
      by rewrite token_contains_remove, bool_decide_eq_true_2.
  - intros Hw. by rewrite bool_decide_eq_false_2 by lia.
Qed.

Lemma nav_resize_closes_witness :
  ∃ doc1 doc2,
    MobileNav.toggleNavLinks sample_nav sample_site = Returned () doc1
    ∧ MobileNav.onResize sample_nav 1000 doc1 = Returned () doc2
    ∧ Tabs.has_class doc2 MobileNav.navOpen 4%nat = false
    ∧ MobileNav.onResize sample_nav 1200 doc2 = Returned () doc2
    ∧ MobileNav.onResize sample_nav 999 doc1 = Returned () doc1.
Proof.
  eexists. 
  destruct (nav_resize_closes sample_nav 4%nat
              (final_world (MobileNav.toggleNavLinks sample_nav sample_site)) 1000)
    as [H1 _]; [reflexivity | compute_done |].
  destruct H1 as (doc2 & Hrun & Hc & _ & _ & _); [lia|].
  exists doc2. split; [reflexivity|]. split; [exact Hrun|]. split; [exact Hc|].
  destruct (nav_resize_closes sample_nav 4%nat doc2 1200) as [H2 _];
    [reflexivity | |].
  { injection Hrun as <-. compute_done. }
  destruct H2 as (doc3 & Hrun3 & _ & _ & _ & _); [lia|].
  split.
  - rewrite Hrun3. f_equal. injection Hrun as <-. injection Hrun3 as <-. reflexivity.
  - apply (nav_resize_closes sample_nav 4%nat
             (final_world (MobileNav.toggleNavLinks sample_nav sample_site)) 999);
      [reflexivity | compute_done | lia].
Defined.

(** ** More of the slider *)

(** X17. [addDots] replaces whatever the dots container held by one
    [div] per slide, in order, whose only class is the dot class (so no
    dot is active yet) and whose [data-slide] attribute reads back, with
    [parseInt], as the index of the dot; the slides and the selected
    index are untouched. *)
Theorem addDots_round_trip (st : Slider.State) :
  let st' := Slider.addDots st in
  length (Slider.dots st') = length (Slider.slides st)
  ∧ Slider.slides st' = Slider.slides st
  ∧ Slider.selectedSlide st' = Slider.selectedSlide st
  ∧ ∀ k dot, Slider.dots st' !! k = Some dot →
      tagName dot = "div"
      ∧ classList dot = [Slider.dotClassName]
      ∧ classList_contains Slider.dotActive dot = false
      ∧ parseInt (default "undefined" (dataset dot !! "slide")) = Num (Z.of_nat k).
Proof.
  intros st'. split_and!; [apply length_imap | done | done |].
  intros k dot. simpl. rewrite list_lookup_imap.
  destruct (Slider.slides st !! k); [|done]. intros [= <-]. split_and!; try done.
  simpl. rewrite lookup_singleton_eq. apply parseInt_to_string.
Qed.

Lemma goTo_view_consistent selected st :
  Slider.dots_generated st → slider_view_consistent (Slider.goTo selected st).
Proof.
  intros Hgen. split.
  - intros j slide. rewrite goTo_slides_lookup.
    destruct (Slider.slides st !! j); [|done]. by intros [= <-].
  - intros k dot. rewrite goTo_dots_lookup by done.
    destruct (Slider.dots st !! k); [|done]. intros [= <-].
    apply toggleClass_active.
Qed.

(** A listener leaves the state as it is or goes to some index. *)
Lemma slider_handle_cases st (i : Slider.Input) :
  Slider.dots_generated st → Slider.input_ok st i →
  Slider.handle st i = st ∨ ∃ x, Slider.handle st i = Slider.goTo x st.
Proof.
  intros Hgen Hok. destruct i as [| |key|evt]; simpl.
  - right. by eexists.
  - right. by eexists.
  - unfold Slider.onKeyup. repeat case_bool_decide; [right; by eexists..|by left].
  - simpl in Hok. unfold Slider.click_ok in Hok.
    destruct (target evt) as [k|chain] eqn:Ht.
    + right. rewrite (onDotClick_dot _ _ k) by done. by eexists.
    + left. by rewrite (onDotClick_static _ _ chain).
Qed.

(** X18. From the start of the script on, whatever the number of slides
    and after any sequence of listener invocations (buttons, arrow keys,
    clicks on generated dots or on static nodes that are not dots), the
    view agrees with the selected index: every slide carries the
    translation computed from it, a dot is active exactly when its index
    is the selected one, and the dots are still one per slide. *)
Theorem slider_view_always_consistent
    (slides0 content0 container0 : list Element) (inputs : list Slider.Input) :
  let st0 := Slider.init slides0 content0 container0 in
  Forall (Slider.input_ok st0) inputs →
  slider_view_consistent (Slider.run inputs st0)
  ∧ Slider.dots_generated (Slider.run inputs st0)
  ∧ length (Slider.dots (Slider.run inputs st0)) = length slides0.
Proof.
  intros st0.
  assert (Hgen0 : Slider.dots_generated st0) by apply init_dots_generated.
  assert (Hview0 : slider_view_consistent st0).
  { apply goTo_view_consistent, addDots_dots_generated. }
  assert (Hlen0 : length (Slider.dots st0) = length slides0).
  { destruct Hgen0 as [-> _]. unfold st0, Slider.init.
    by rewrite goTo_slides_length. }
  revert Hgen0 Hview0 Hlen0. generalize st0. clear st0.
  induction inputs as [|i inputs IH]; intros st Hgen Hview Hlen Hok; [done|].
  apply Forall_cons in Hok as [Hi Hok].
  change (Slider.run (i :: inputs) st) with (Slider.run inputs (Slider.handle st i)).
  destruct (slider_handle_cases st i Hgen Hi) as [E|[x E]]; rewrite E.
  - by apply IH.
  - apply IH.
    + by apply goTo_dots_generated.
    + by apply goTo_view_consistent.
    + by rewrite goTo_dots_length.
    + eapply Forall_impl; [exact Hok|]. intros j.
      apply input_ok_same_dots. by rewrite goTo_dots_length.
Qed.

Lemma slider_view_always_consistent_witness :
  slider_view_consistent
    (Slider.run [Slider.ClickLeft; Slider.ClickSlider (click_on (Slider.DotsChild 1));
                 Slider.Keyup "ArrowRight"] sample_slider).
Proof.
  destruct (slider_view_always_consistent
              [sample_slide; sample_slide; sample_slide; sample_slide] []
              [elt "div" ["dots"] ∅; elt "div" ["slider"] ∅; elt "body" [] ∅]
              [Slider.ClickLeft; Slider.ClickSlider (click_on (Slider.DotsChild 1));
               Slider.Keyup "ArrowRight"]) as (H & _).
  - repeat constructor.
  - exact H.
Defined.

(** X19. The view after [goTo] at an integer index depends on that index
    only: going to the integer [j] after going to any [i] gives the same
    selected index and the same slides as going to [j] at once, and dots
    with the same classes. *)
Theorem goTo_overrides (st : Slider.State) (i : JsVal) (j : Z) :
  Slider.dots_generated st →
  Slider.selectedSlide (Slider.goTo (Num j) (Slider.goTo i st)) = Num j
  ∧ Slider.slides (Slider.goTo (Num j) (Slider.goTo i st))
    = Slider.slides (Slider.goTo (Num j) st)
  ∧ ∀ k c,
      (classList_contains c <$> Slider.dots (Slider.goTo (Num j) (Slider.goTo i st)) !! k)
      = (classList_contains c <$> Slider.dots (Slider.goTo (Num j) st) !! k).
Proof.
  intros Hgen. split_and!; [done | |].
  - apply list_eq. intros k. rewrite !goTo_slides_lookup.
    by destruct (Slider.slides st !! k).
  - intros k c. rewrite !goTo_dots_lookup by (by try apply goTo_dots_generated).
    destruct (Slider.dots st !! k) as [dot|]; [|done].
    cbn [fmap option_fmap option_map]. f_equal.
    generalize (js_strict_eq (Num (Z.of_nat k)) i) as bi.
    generalize (js_strict_eq (Num (Z.of_nat k)) (Num j)) as bj. intros bj bi.
    unfold utils.toggleClass. destruct (decide (c = Slider.dotActive)) as [->|Hc].
    + destruct bi, bj;
        repeat first [ rewrite classList_contains_add
                     | rewrite classList_contains_remove
                     | rewrite (bool_decide_eq_true_2
                                  (Slider.dotActive = Slider.dotActive)) by done ];
        done.
    + destruct bi, bj;
        repeat first [ rewrite classList_contains_add
                     | rewrite classList_contains_remove
                     | rewrite (bool_decide_eq_false_2 (c = Slider.dotActive))
                         by done ];
        done.
Qed.

Lemma goTo_overrides_witness :
  Slider.slides (Slider.goTo (Num 3) (Slider.goTo (Num 1) sample_slider))
  = Slider.slides (Slider.goTo (Num 3) sample_slider).
Proof.
  destruct (goTo_overrides sample_slider (Num 1) 3) as (_ & H & _);
    [apply sample_slider_dots_generated | exact H].
Defined.

(** X20. Without slides the index arithmetic leaves the integers: the
    script starts with index 0, [next] then selects [NaN] (a remainder by
    zero) and [previous] selects -1; and from [NaN], with any number of
    slides, [next] and [previous] select [NaN] again. *)
Theorem slider_without_slides (st : Slider.State) (s : Z) :
  Slider.slides st = [] → Slider.selectedSlide st = Num s →
  Slider.selectedSlide (Slider.next st) = NaN
  ∧ Slider.selectedSlide (Slider.previous st) = Num (if decide (s = 0) then -1 else s - 1)
  ∧ Slider.selectedSlide (Slider.next (Slider.next st)) = NaN
  ∧ Slider.selectedSlide (Slider.previous (Slider.next st)) = NaN
  ∧ ∀ st' : Slider.State, Slider.selectedSlide st' = NaN →
      Slider.selectedSlide (Slider.next st') = NaN
      ∧ Slider.selectedSlide (Slider.previous st') = NaN.
Proof.
  intros Hs Hsel.
  assert (Hnan : ∀ st' : Slider.State, Slider.selectedSlide st' = NaN →
            Slider.selectedSlide (Slider.next st') = NaN
            ∧ Slider.selectedSlide (Slider.previous st') = NaN).
  { intros st' H. unfold Slider.next, Slider.previous. by rewrite H. }
  assert (Hnext : Slider.selectedSlide (Slider.next st) = NaN).
  { unfold Slider.next, Slider.slides_length. by rewrite Hsel, Hs. }
  split_and!; [done | | by apply Hnan | by apply Hnan | done].
  rewrite (previous_selected st s Hsel), Hs. simpl. by destruct (decide (s = 0)).
Qed.

Lemma slider_without_slides_witness :
  Slider.selectedSlide (Slider.init [] [] []) = Num 0
  ∧ Slider.selectedSlide (Slider.next (Slider.init [] [] [])) = NaN
  ∧ Slider.selectedSlide (Slider.previous (Slider.init [] [] [])) = Num (-1).
Proof.
  destruct (slider_without_slides (Slider.init [] [] []) 0) as (H1 & H2 & _);
    [reflexivity | reflexivity |].
  split_and!; [reflexivity | exact H1 | exact H2].
Defined.

(** X21. A click on a static element of the slider that carries the dot
    class but no [data-slide] attribute: [parseInt] gives [NaN], the
    selected index becomes [NaN] and no dot is active; the dots are still
    one per slide, and [next] and [previous] select [NaN] again. *)
Theorem dot_click_without_index
    (st : Slider.State) (evt : Event Slider.Node) (e : Element) (up : list Element) :
  Slider.dots_generated st →
  target evt = Slider.Static (e :: up) →
  elt_matches (class_sel Slider.dotClassName) e = true →
  dataset e !! "slide" = None →
  let st' := Slider.handle st (Slider.ClickSlider evt) in
  Slider.selectedSlide st' = NaN
  ∧ (∀ k dot, Slider.dots st' !! k = Some dot →
       classList_contains Slider.dotActive dot = false)
  ∧ Slider.dots_generated st'
  ∧ Slider.selectedSlide (Slider.next st') = NaN
  ∧ Slider.selectedSlide (Slider.previous st') = NaN.
Proof.
  intros Hgen Ht Hm Hd st'.
  assert (E : st' = Slider.goTo NaN st).
  { unfold st'. simpl. unfold Slider.onDotClick,
      utils.delegatedTargetSelectorEventListener, utils.delegatedEventListener.
    replace (utils.selectorMatchingStrategy (class_sel Slider.dotClassName) evt st)
      with true.
    - unfold mbind, JS_bind, Slider.target_slide. rewrite Ht.
      unfold lineage_of, Slider.State_view. simpl. by rewrite Hd.
    - unfold utils.selectorMatchingStrategy, node_matches. rewrite Ht.
      unfold lineage_of, Slider.State_view. simpl. by rewrite Hm. }
  destruct (goTo_view_consistent NaN st Hgen) as [_ Hdots].
  rewrite E. split_and!; [done | | by apply goTo_dots_generated | done | done].
  intros k dot Hk. by rewrite (Hdots k dot Hk).
Qed.

Lemma dot_click_without_index_witness :
  Slider.selectedSlide
    (Slider.handle sample_slider
       (Slider.ClickSlider (click_on (Slider.Static [elt "div" ["dots__dot"] ∅]))))
  = NaN.
Proof.
  destruct (dot_click_without_index sample_slider
              (click_on (Slider.Static [elt "div" ["dots__dot"] ∅]))
              (elt "div" ["dots__dot"] ∅) []) as (H & _);
    [apply sample_slider_dots_generated | reflexivity | reflexivity | reflexivity
    | exact H].
Defined.
